(** * Quorum-commitment block processor

    A shallow embedding of [src/llmq/blockprocessor.cpp]
    (class [CQuorumBlockProcessor]) and the properties of its specification.

    Conventions of the embedding:
    - C++ integers ([int], [size_t], [uint32_t]) are [Z] or [nat]; the one
      place where the source relies on unsigned wrap-around (the inverted
      height of the reverse-index keys) writes the reduction modulo [2^32]
      out.  Heights are far below [2^31], signed overflow is not modelled.
    - [uint256] is a [Z]; the null hash [uint256()] is [0].
    - [nHeight % dkgInterval] is C++ truncated remainder, [Z.rem].
    - The mutable members of the processor ([m_evoDb], the existence cache,
      the two maps of mineable commitments) and the calls to the connection
      manager form the record [State]; every member function is a state
      transformer that may also abort the process ([assert], a null
      dereference, [std::map::at] on a missing key): the monad [M].
    - Everything the file only calls (chain parameters, the active chain,
      deployment predicates, BLS verification, hashing) is gathered in the
      record [Env] and is constant during a call. *)

From Stdlib Require Import ZArith Lia.
From stdpp Require Import base option list gmap strings.

Local Open Scope Z_scope.
Set Warnings "-register-all".

(** ** Data model *)

Abbreviation uint256 := Z (only parsing).
Abbreviation LLMQType := Z (only parsing).

(** [Consensus::LLMQParams], the fields this file reads. *)
Record LLMQParams := {
  type : LLMQType;
  dkgInterval : Z;
  dkgMiningWindowStart : Z;
  dkgMiningWindowEnd : Z;
  signingActiveQuorumCount : Z
}.

(** [CFinalCommitment].  The aggregate public key and the aggregate
    signature are opaque values, [None] when not set. *)
Record CFinalCommitment := {
  nVersion : Z;
  llmqType : LLMQType;
  quorumHash : uint256;
  quorumIndex : Z;
  signers : list bool;
  validMembers : list bool;
  quorumPublicKey : option Z;
  quorumSig : option Z
}.

Fixpoint count_true (l : list bool) : Z :=
  match l with
  | [] => 0
  | b :: l' => (if b then 1 else 0) + count_true l'
  end.

Definition CountSigners (qc : CFinalCommitment) : Z := count_true (signers qc).
Definition CountValidMembers (qc : CFinalCommitment) : Z := count_true (validMembers qc).

(** Modelled from the spec: [CFinalCommitment::IsNull] (llmq/commitment.h is
    not part of the sources).  A null commitment has empty member and signer
    sets and carries no aggregate key or signature. *)
Definition IsNull (qc : CFinalCommitment) : bool :=
  (CountSigners qc =? 0) && (CountValidMembers qc =? 0)
  && negb (bool_decide (is_Some (quorumPublicKey qc)))
  && negb (bool_decide (is_Some (quorumSig qc))).

(** Modelled from the spec: the constructor
    [CFinalCommitment(llmqParams, quorumHash)] of a fresh null commitment for
    a slot: type and committee hash set, nothing else. *)
Definition CFinalCommitment_null (llmqParams : LLMQParams) (quorumHash : uint256)
  : CFinalCommitment :=
  {| nVersion := 0; llmqType := type llmqParams; quorumHash := quorumHash;
     quorumIndex := 0; signers := []; validMembers := [];
     quorumPublicKey := None; quorumSig := None |}.

(** [CBlockIndex]: height, block hash and the pointer to the predecessor. *)
Inductive CBlockIndex := mkBlockIndex {
  nHeight : Z;
  phashBlock : uint256;
  pprev : option CBlockIndex
}.

(** Modelled from the spec: [CBlockIndex::GetAncestor] (chain.cpp), the
    ancestor of a block at a given height, [nullptr] when the height is
    negative or above the block. *)
Fixpoint GetAncestor (pindex : CBlockIndex) (height : Z) : option CBlockIndex :=
  match pindex with
  | mkBlockIndex h _ prev =>
      if (height >? h) || (height <? 0) then None
      else if h =? height then Some pindex
      else match prev with
           | Some p => GetAncestor p height
           | None => None
           end
  end.

(** [CFinalCommitmentTxPayload] and a transaction; [txPayload] is the result
    of decoding the extra payload as a commitment payload ([GetTxPayload]
    fails when it is [None]). *)
Record CFinalCommitmentTxPayload := {
  payload_nVersion : Z;
  payload_nHeight : Z;
  commitment : CFinalCommitment
}.

Record CTransaction := {
  nType : Z;
  txPayload : option CFinalCommitmentTxPayload
}.

Definition TRANSACTION_QUORUM_COMMITMENT : Z := 6.

Definition GetTxPayload (tx : CTransaction) : option CFinalCommitmentTxPayload :=
  txPayload tx.

Record CBlock := {
  GetHash : uint256;
  vtx : list CTransaction
}.

(** The collaborators of the file. *)
Record Env := {
  DIP0003Height : Z;
  llmqs : list LLMQParams;
  ChainActive_Tip : option CBlockIndex;
  LookupBlockIndex : uint256 -> option CBlockIndex;
  GetEnabledQuorumParams : option CBlockIndex -> list LLMQParams;
  IsQuorumRotationEnabled : LLMQParams -> option CBlockIndex -> bool;
  IsV19Active : option CBlockIndex -> bool;
  Verify : CFinalCommitment -> option CBlockIndex -> bool -> bool;
  VerifyNull : CFinalCommitment -> bool;
  SerializeHash : CFinalCommitment -> uint256;
  GetVersion : bool -> bool -> Z
}.

(** [GetLLMQParams]: the parameters of a committee type, if it is known. *)
Definition GetLLMQParams (E : Env) (t : LLMQType) : option LLMQParams :=
  List.find (fun p => type p =? t) (llmqs E).

(** [::ChainActive().Height()], [-1] for an empty chain. *)
Definition ChainActive_Height (E : Env) : Z :=
  match ChainActive_Tip E with
  | Some tip => nHeight tip
  | None => -1
  end.

(** Modelled from the spec: [GetBlockHash(hash, height)] (validation.cpp),
    the hash of the block at [height] on the active branch; it fails when
    the branch does not reach that height. *)
Definition GetBlockHash (E : Env) (height : Z) : option uint256 :=
  tip ← ChainActive_Tip E;
  b ← GetAncestor tip height;
  Some (phashBlock b).

(** ** Storage keys *)

Definition DB_MINED_COMMITMENT : string := "q_mc".
Definition DB_MINED_COMMITMENT_BY_INVERSED_HEIGHT : string := "q_mcih".
Definition DB_MINED_COMMITMENT_BY_INVERSED_HEIGHT_Q_INDEXED : string := "q_mcihi".
Definition DB_BEST_BLOCK_UPGRADE : string := "q_bbu2".

Definition UINT32_MAX : Z := 4294967295.

(** [htobe32] and [be32toh] on a little-endian host: the four bytes of the
    value in reverse order. *)
Definition htobe32 (x : Z) : Z :=
  (x mod 256) * 16777216 + ((x / 256) mod 256) * 65536
  + ((x / 65536) mod 256) * 256 + ((x / 16777216) mod 256).

Definition be32toh (x : Z) : Z := htobe32 x.

(** [uint32_t] subtraction [UINT32_MAX - nMinedHeight]: the [int] operand is
    converted to unsigned, the result is reduced modulo [2^32]. *)
Definition inversed_height (nMinedHeight : Z) : Z :=
  (UINT32_MAX - nMinedHeight) mod 4294967296.

Definition BuildInversedHeightKey (llmqType : LLMQType) (nMinedHeight : Z)
  : string * LLMQType * Z :=
  (DB_MINED_COMMITMENT_BY_INVERSED_HEIGHT, llmqType,
   htobe32 (inversed_height nMinedHeight)).

Definition BuildInversedHeightKeyIndexed (llmqType : LLMQType) (nMinedHeight : Z)
    (quorumIndex : Z) : string * LLMQType * Z * Z :=
  (DB_MINED_COMMITMENT_BY_INVERSED_HEIGHT_Q_INDEXED, llmqType, quorumIndex,
   htobe32 (inversed_height nMinedHeight)).

(** Modelled from the spec: the byte form of the keys.  The database orders
    its keys bytewise; a key is the concatenation of its serialized
    components: a string as its length and its characters, the committee type
    as one byte, [int] and [uint32_t] as four bytes and a hash as 32 bytes,
    least significant byte first (so that the byte-swapped inverted height is
    written most significant byte first). *)
Fixpoint le_bytes (n : nat) (x : Z) : list Z :=
  match n with
  | O => []
  | S n' => (x mod 256) :: le_bytes n' (x / 256)
  end.

Definition ser_string (s : string) : list Z :=
  Z.of_nat (String.length s)
  :: map (fun c => Z.of_N (Ascii.N_of_ascii c)) (String.list_ascii_of_string s).

Definition ser_uint8 (x : Z) : list Z := [x mod 256].
Definition ser_uint32 (x : Z) : list Z := le_bytes 4 x.
Definition ser_int32 (x : Z) : list Z := le_bytes 4 (x mod 4294967296).
Definition ser_uint256 (x : Z) : list Z := le_bytes 32 x.

Definition ser_mined_key (k : string * (LLMQType * uint256)) : list Z :=
  let '(tag, (t, h)) := k in ser_string tag ++ ser_uint8 t ++ ser_uint256 h.

Definition ser_inversed_key (k : string * LLMQType * Z) : list Z :=
  let '(tag, t, be) := k in ser_string tag ++ ser_uint8 t ++ ser_uint32 be.

Definition ser_inversed_key_indexed (k : string * LLMQType * Z * Z) : list Z :=
  let '(tag, t, qi, be) := k in
  ser_string tag ++ ser_uint8 t ++ ser_int32 qi ++ ser_uint32 be.

(** The keys the file writes, by their C++ type: the pair of the primary
    record, the two tuples of the reverse indexes, and the plain string of the
    best-block marker; [ser_key] is the byte form the database orders them by. *)
Inductive DbKey :=
| KeyMinedCommitment (k : string * (LLMQType * uint256))
| KeyInversedHeight (k : string * LLMQType * Z)
| KeyInversedHeightIndexed (k : string * LLMQType * Z * Z)
| KeyString (k : string).

Definition ser_key (k : DbKey) : list Z :=
  match k with
  | KeyMinedCommitment k' => ser_mined_key k'
  | KeyInversedHeight k' => ser_inversed_key k'
  | KeyInversedHeightIndexed k' => ser_inversed_key_indexed k'
  | KeyString k' => ser_string k'
  end.

#[global] Instance DbKey_eq_dec : EqDecision DbKey.
Proof. solve_decision. Defined.

#[global] Instance DbKey_countable : Countable DbKey.
Proof.
  refine (inj_countable'
            (fun k => match k with
                      | KeyMinedCommitment a => inl a
                      | KeyInversedHeight a => inr (inl a)
                      | KeyInversedHeightIndexed a => inr (inr (inl a))
                      | KeyString a => inr (inr (inr a))
                      end)
            (fun x => match x with
                      | inl a => KeyMinedCommitment a
                      | inr (inl a) => KeyInversedHeight a
                      | inr (inr (inl a)) => KeyInversedHeightIndexed a
                      | inr (inr (inr a)) => KeyString a
                      end) _).
  by intros [].
Defined.

Definition mined_key (t : LLMQType) (h : uint256) : DbKey :=
  KeyMinedCommitment (DB_MINED_COMMITMENT, (t, h)).

Definition best_block_key : DbKey := KeyString DB_BEST_BLOCK_UPGRADE.

(** Bytewise order of keys: lexicographic, a proper prefix first. *)
Fixpoint bytes_ltb (a b : list Z) : bool :=
  match a, b with
  | _, [] => false
  | [], _ :: _ => true
  | x :: a', y :: b' => (x <? y) || ((x =? y) && bytes_ltb a' b')
  end.

(** Decoding a key into the tuple type of the iterating function
    ([CDBIterator::GetKey]); it fails when the bytes run out. *)
Definition deser_string (bs : list Z) : option (string * list Z) :=
  match bs with
  | [] => None
  | n :: rest =>
      if (n <? 253) && (Z.to_nat n <=? length rest)%nat then
        Some (String.string_of_list_ascii
                (map (fun b => Ascii.ascii_of_N (Z.to_N b)) (take (Z.to_nat n) rest)),
              drop (Z.to_nat n) rest)
      else None
  end.

Definition deser_uint8 (bs : list Z) : option (Z * list Z) :=
  match bs with
  | b :: rest => Some (b, rest)
  | [] => None
  end.

Definition deser_uint32 (bs : list Z) : option (Z * list Z) :=
  match bs with
  | b0 :: b1 :: b2 :: b3 :: rest =>
      Some (b0 + 256 * b1 + 65536 * b2 + 16777216 * b3, rest)
  | _ => None
  end.


Definition GetKey_inversed (bs : list Z) : option (string * LLMQType * Z) :=
  '(tag, r1) ← deser_string bs;
  '(t, r2) ← deser_uint8 r1;
  '(be, _) ← deser_uint32 r2;
  Some (tag, t, be).


(** [operator>=] of the two tuple types. *)
Definition tuple3_ltb (a b : string * LLMQType * Z) : bool :=
  let '(s1, t1, v1) := a in
  let '(s2, t2, v2) := b in
  String.ltb s1 s2
  || (String.eqb s1 s2 && ((t1 <? t2) || ((t1 =? t2) && (v1 <? v2)))).


(** ** Processor state *)

(** What the database holds: a commitment with the hash of the block that
    mined it, a committee height (reverse indexes), or a block hash (the
    best-block marker). *)
Inductive DbValue :=
| ValCommitment (qc : CFinalCommitment) (minedBlockHash : uint256)
| ValHeight (quorumHeight : Z)
| ValHash (h : uint256).

Record State := {
  evoDb : gmap DbKey DbValue;
  mapHasMinedCommitmentCache : gmap (Z * Z) bool;
  minableCommitmentsByQuorum : gmap (Z * Z) Z;
  minableCommitments : gmap Z CFinalCommitment;
  relayed : list Z;
  bls_legacy_scheme : bool
}.

Definition set_evoDb (f : gmap DbKey DbValue -> gmap DbKey DbValue) (s : State) : State :=
  {| evoDb := f (evoDb s);
     mapHasMinedCommitmentCache := mapHasMinedCommitmentCache s;
     minableCommitmentsByQuorum := minableCommitmentsByQuorum s;
     minableCommitments := minableCommitments s;
     relayed := relayed s;
     bls_legacy_scheme := bls_legacy_scheme s |}.

Definition set_cache (f : gmap (Z * Z) bool -> gmap (Z * Z) bool) (s : State) : State :=
  {| evoDb := evoDb s;
     mapHasMinedCommitmentCache := f (mapHasMinedCommitmentCache s);
     minableCommitmentsByQuorum := minableCommitmentsByQuorum s;
     minableCommitments := minableCommitments s;
     relayed := relayed s;
     bls_legacy_scheme := bls_legacy_scheme s |}.

Definition set_byQuorum (f : gmap (Z * Z) Z -> gmap (Z * Z) Z) (s : State) : State :=
  {| evoDb := evoDb s;
     mapHasMinedCommitmentCache := mapHasMinedCommitmentCache s;
     minableCommitmentsByQuorum := f (minableCommitmentsByQuorum s);
     minableCommitments := minableCommitments s;
     relayed := relayed s;
     bls_legacy_scheme := bls_legacy_scheme s |}.

Definition set_minable (f : gmap Z CFinalCommitment -> gmap Z CFinalCommitment) (s : State) : State :=
  {| evoDb := evoDb s;
     mapHasMinedCommitmentCache := mapHasMinedCommitmentCache s;
     minableCommitmentsByQuorum := minableCommitmentsByQuorum s;
     minableCommitments := f (minableCommitments s);
     relayed := relayed s;
     bls_legacy_scheme := bls_legacy_scheme s |}.

Definition set_relayed (f : list Z -> list Z) (s : State) : State :=
  {| evoDb := evoDb s;
     mapHasMinedCommitmentCache := mapHasMinedCommitmentCache s;
     minableCommitmentsByQuorum := minableCommitmentsByQuorum s;
     minableCommitments := minableCommitments s;
     relayed := f (relayed s);
     bls_legacy_scheme := bls_legacy_scheme s |}.

Definition set_bls (b : bool) (s : State) : State :=
  {| evoDb := evoDb s;
     mapHasMinedCommitmentCache := mapHasMinedCommitmentCache s;
     minableCommitmentsByQuorum := minableCommitmentsByQuorum s;
     minableCommitments := minableCommitments s;
     relayed := relayed s;
     bls_legacy_scheme := b |}.

(** ** The monad of member functions *)

Inductive Outcome (A : Type) : Type :=
| Done (a : A) (s : State)
| Crash.
Arguments Done {A} a s.
Arguments Crash {A}.

Definition M (A : Type) : Type := State -> Outcome A.

Definition retM {A} (a : A) : M A := fun s => Done a s.

Definition bind {A B} (m : M A) (k : A -> M B) : M B :=
  fun s => match m s with
           | Done a s' => k a s'
           | Crash => Crash
           end.

Notation "'do' x <- m ; k" := (bind m (fun x => k))
  (at level 10, x name, m at level 100, k at level 200).
Notation "'run' m ; k" := (bind m (fun _ => k))
  (at level 10, m at level 100, k at level 200).

Definition crash {A} : M A := fun _ => Crash.
Definition modify (f : State -> State) : M unit := fun s => Done tt (f s).
Definition assert (b : bool) : M unit := if b then retM tt else crash.

(** [m_evoDb.Write], [m_evoDb.Erase]. *)
Definition db_write (k : DbKey) (v : DbValue) : M unit := modify (set_evoDb (insert k v)).
Definition db_erase (k : DbKey) : M unit := modify (set_evoDb (delete k)).

(** [std::map::emplace]: an existing entry is kept. *)
Definition map_emplace {K V} `{Countable K} (k : K) (v : V) (m : gmap K V) : gmap K V :=
  match m !! k with
  | Some _ => m
  | None => <[k := v]> m
  end.

(** ** Scheduler *)

(** [IsMiningPhase]. *)
Definition IsMiningPhase (E : Env) (llmqParams : LLMQParams) (nHeight : Z) : M bool :=
  run assert (nHeight <=? ChainActive_Height E + 1);
  let quorumCycleStartHeight := nHeight - Z.rem nHeight (dkgInterval llmqParams) in
  let quorumCycleMiningStartHeight := quorumCycleStartHeight + dkgMiningWindowStart llmqParams in
  let quorumCycleMiningEndHeight := quorumCycleStartHeight + dkgMiningWindowEnd llmqParams in
  if (nHeight >=? quorumCycleMiningStartHeight) && (nHeight <=? quorumCycleMiningEndHeight)
  then retM true
  else retM false.

(** [GetQuorumBlockHash]; the null hash when the block is not known yet. *)
Definition GetQuorumBlockHash (E : Env) (llmqParams : LLMQParams) (nHeight : Z)
    (quorumIndex : Z) : uint256 :=
  let quorumStartHeight := nHeight - Z.rem nHeight (dkgInterval llmqParams) + quorumIndex in
  match GetBlockHash E quorumStartHeight with
  | None => 0
  | Some quorumBlockHash => quorumBlockHash
  end.

(** [HasMinedCommitment]: the cache first, then the database, whose answer
    is cached.  Modelled from the spec: the cache
    ([unordered_lru_cache], declared outside this file) is a finite map with
    [get], [insert] and [erase].  The cache of the source also drops entries
    when it outgrows its size bound; this map does not.  The statements
    below therefore never say that an entry stays in the cache: they use the
    cache through [cache_coherent] (every entry it holds is the answer of
    the database), which dropping entries preserves, and through the answers
    of the existence check. *)
Definition HasMinedCommitment (llmqType : LLMQType) (quorumHash : uint256) : M bool :=
  fun s =>
    match mapHasMinedCommitmentCache s !! (llmqType, quorumHash) with
    | Some fExists => Done fExists s
    | None =>
        let fExists := bool_decide (is_Some (evoDb s !! mined_key llmqType quorumHash)) in
        Done fExists (set_cache (insert (llmqType, quorumHash) fExists) s)
    end.

(** [irange::range(n)]. *)
Definition irange (n : nat) : list Z := map Z.of_nat (seq 0 n).

(** The block index at which rotation is looked up by
    [GetNumCommitmentsRequired] and [GetMineableCommitments]. *)
Definition tip_or_ancestor (E : Env) (nHeight : Z) : M (option CBlockIndex) :=
  if ChainActive_Height E <? nHeight then retM (ChainActive_Tip E)
  else match ChainActive_Tip E with
       | Some tip => retM (GetAncestor tip nHeight)
       | None => crash
       end.

Definition quorums_num (rotation_enabled : bool) (llmqParams : LLMQParams) : nat :=
  if rotation_enabled then Z.to_nat (signingActiveQuorumCount llmqParams) else 1%nat.

(** The loop of [GetNumCommitmentsRequired]. *)
Fixpoint count_required (E : Env) (llmqParams : LLMQParams) (nHeight : Z)
    (indexes : list Z) (result : nat) : M nat :=
  match indexes with
  | [] => retM result
  | quorumIndex :: rest =>
      let quorumHash := GetQuorumBlockHash E llmqParams nHeight quorumIndex in
      if quorumHash =? 0 then count_required E llmqParams nHeight rest result
      else
        do mined <- HasMinedCommitment (type llmqParams) quorumHash;
        count_required E llmqParams nHeight rest (if mined then result else S result)
  end.

(** [GetNumCommitmentsRequired]. *)
Definition GetNumCommitmentsRequired (E : Env) (llmqParams : LLMQParams) (nHeight : Z)
  : M nat :=
  do mining <- IsMiningPhase E llmqParams nHeight;
  if negb mining then retM 0%nat
  else
    run assert (nHeight <=? ChainActive_Height E + 1);
    do pindex <- tip_or_ancestor E nHeight;
    let rotation_enabled := IsQuorumRotationEnabled E llmqParams pindex in
    count_required E llmqParams nHeight
      (irange (quorums_num rotation_enabled llmqParams)) 0%nat.

(** ** Extraction of the commitments of a block *)

(** The result of a function that returns [bool] and reports through a
    [CValidationState]: success, [state.Invalid] with its reject reason, or
    a plain [false]. *)
Inductive CValidationResult :=
| ResOk
| ResInvalid (strRejectReason : string)
| ResFalse.

(** [std::multimap<LLMQType, CFinalCommitment>]: ordered by key, equal keys
    in insertion order. *)
Fixpoint multimap_emplace (k : LLMQType) (v : CFinalCommitment)
    (m : list (LLMQType * CFinalCommitment)) : list (LLMQType * CFinalCommitment) :=
  match m with
  | [] => [(k, v)]
  | (k', v') :: rest =>
      if k <? k' then (k, v) :: m else (k', v') :: multimap_emplace k v rest
  end.

Definition multimap_count (k : LLMQType) (m : list (LLMQType * CFinalCommitment)) : nat :=
  length (List.filter (fun e => fst e =? k) m).

(** The loop of [GetCommitmentsFromBlock] over the transactions. *)
Fixpoint extract_commitments (E : Env) (pindex : CBlockIndex) (txs : list CTransaction)
    (ret : list (LLMQType * CFinalCommitment))
  : CValidationResult * list (LLMQType * CFinalCommitment) :=
  match txs with
  | [] => (ResOk, ret)
  | tx :: rest =>
      if nType tx =? TRANSACTION_QUORUM_COMMITMENT then
        match GetTxPayload tx with
        | None => (ResInvalid "bad-qc-payload", ret)
        | Some qc =>
            match GetLLMQParams E (llmqType (commitment qc)) with
            | None => (ResInvalid "bad-qc-commitment-type", ret)
            | Some llmq_params =>
                if negb (IsQuorumRotationEnabled E llmq_params (Some pindex))
                   && negb (multimap_count (llmqType (commitment qc)) ret =? 0)%nat
                then (ResInvalid "bad-qc-dup", ret)
                else extract_commitments E pindex rest
                       (multimap_emplace (llmqType (commitment qc)) (commitment qc) ret)
            end
        end
      else extract_commitments E pindex rest ret
  end.

(** [GetCommitmentsFromBlock]: the verdict and the extracted multimap. *)
Definition GetCommitmentsFromBlock (E : Env) (block : CBlock) (pindex : CBlockIndex)
  : CValidationResult * list (LLMQType * CFinalCommitment) :=
  match extract_commitments E pindex (vtx block) [] with
  | (ResOk, ret) =>
      if (nHeight pindex <? DIP0003Height E) && negb (bool_decide (ret = []))
      then (ResInvalid "bad-qc-premature", ret)
      else (ResOk, ret)
  | r => r
  end.

(** ** Mineable commitments *)

(** [AddMineableCommitment]. *)
Definition AddMineableCommitment (E : Env) (fqc : CFinalCommitment) : M unit :=
  let commitmentHash := SerializeHash E fqc in
  let k := (llmqType fqc, quorumHash fqc) in
  fun s =>
    match minableCommitmentsByQuorum s !! k with
    | None =>
        (* the slot was free: [ins.second] is true *)
        (run modify (set_byQuorum (insert k commitmentHash));
         run modify (set_minable (map_emplace commitmentHash fqc));
         modify (set_relayed (fun l => l ++ [commitmentHash]))) s
    | Some oldHash =>
        match minableCommitments s !! oldHash with
        | None => Crash (* [minableCommitments.at] throws *)
        | Some oldFqc =>
            if CountSigners fqc >? CountSigners oldFqc then
              (run modify (set_byQuorum (insert k commitmentHash));
               (* the entry erased is the one of the hash just stored *)
               run modify (set_minable (delete commitmentHash));
               run modify (set_minable (map_emplace commitmentHash fqc));
               modify (set_relayed (fun l => l ++ [commitmentHash]))) s
            else Done tt s
        end
    end.

(** The best known candidate of a slot: the lookup of [ProcessMessage] and
    [GetMineableCommitments] through both maps. *)
Definition best_candidate (s : State) (t : LLMQType) (h : uint256) : option CFinalCommitment :=
  hash ← minableCommitmentsByQuorum s !! (t, h);
  minableCommitments s !! hash.

(** [HasMineableCommitment], [GetMineableCommitmentByHash]. *)
Definition HasMineableCommitment (hash : uint256) (s : State) : bool :=
  bool_decide (is_Some (minableCommitments s !! hash)).

Definition GetMineableCommitmentByHash (commitmentHash : uint256) (s : State)
  : option CFinalCommitment :=
  minableCommitments s !! commitmentHash.

Definition set_index_version (cf : CFinalCommitment) (qi : Z) (v : Z) : CFinalCommitment :=
  {| nVersion := v; llmqType := llmqType cf; quorumHash := quorumHash cf;
     quorumIndex := qi; signers := signers cf; validMembers := validMembers cf;
     quorumPublicKey := quorumPublicKey cf; quorumSig := quorumSig cf |}.

(** The loop of [GetMineableCommitments]: it stops at the first sub-index
    whose block hash is unknown and skips the mined ones. *)
Fixpoint collect_mineable (E : Env) (llmqParams : LLMQParams) (nHeight : Z)
    (rotation_enabled basic_bls_enabled : bool) (indexes : list Z)
    (ret : list CFinalCommitment) : M (list CFinalCommitment) :=
  match indexes with
  | [] => retM ret
  | quorumIndex :: rest =>
      let quorumHash := GetQuorumBlockHash E llmqParams nHeight quorumIndex in
      if quorumHash =? 0 then retM ret
      else
        do mined <- HasMinedCommitment (type llmqParams) quorumHash;
        if mined then
          collect_mineable E llmqParams nHeight rotation_enabled basic_bls_enabled rest ret
        else
          fun s =>
            match minableCommitmentsByQuorum s !! (type llmqParams, quorumHash) with
            | None =>
                let cf := set_index_version (CFinalCommitment_null llmqParams quorumHash)
                            quorumIndex (GetVersion E rotation_enabled basic_bls_enabled) in
                collect_mineable E llmqParams nHeight rotation_enabled basic_bls_enabled
                  rest (ret ++ [cf]) s
            | Some hash =>
                match minableCommitments s !! hash with
                | None => Crash (* [minableCommitments.at] throws *)
                | Some cf =>
                    collect_mineable E llmqParams nHeight rotation_enabled
                      basic_bls_enabled rest (ret ++ [cf]) s
                end
            end
  end.

(** [GetMineableCommitments]. *)
Definition GetMineableCommitments (E : Env) (llmqParams : LLMQParams) (nHeight : Z)
  : M (option (list CFinalCommitment)) :=
  do required <- GetNumCommitmentsRequired E llmqParams nHeight;
  if (required =? 0)%nat then retM None
  else
    run assert (nHeight <=? ChainActive_Height E + 1);
    do pindex <- tip_or_ancestor E nHeight;
    let rotation_enabled := IsQuorumRotationEnabled E llmqParams pindex in
    let basic_bls_enabled := IsV19Active E pindex in
    do result <- collect_mineable E llmqParams nHeight rotation_enabled basic_bls_enabled
                   (irange (quorums_num rotation_enabled llmqParams)) [];
    if bool_decide (result = []) then retM None else retM (Some result).

(** ** Processing and undoing a block *)

(** [ProcessCommitment]. *)
Definition ProcessCommitment (E : Env) (height : Z) (blockHash : uint256)
    (qc : CFinalCommitment) (fJustCheck fBLSChecks : bool) : M CValidationResult :=
  match GetLLMQParams E (llmqType qc) with
  | None => retM ResFalse
  | Some llmq_params =>
      let qHash :=
        match ChainActive_Tip E with
        | None => quorumHash qc
        | Some _ => GetQuorumBlockHash E llmq_params height (quorumIndex qc)
        end in
      if qHash =? 0 then retM (ResInvalid "bad-qc-block")
      else if negb (qHash =? quorumHash qc) then retM (ResInvalid "bad-qc-block")
      else if IsNull qc then
        (if negb (VerifyNull E qc) then retM (ResInvalid "bad-qc-invalid-null")
         else retM ResOk)
      else
        do mined <- HasMinedCommitment (type llmq_params) qHash;
        if mined then retM (ResInvalid "bad-qc-dup")
        else
          do mining <- IsMiningPhase E llmq_params height;
          if negb mining then retM (ResInvalid "bad-qc-height")
          else
            let pQuorumBaseBlockIndex := LookupBlockIndex E (quorumHash qc) in
            if negb (Verify E qc pQuorumBaseBlockIndex fBLSChecks)
            then retM (ResInvalid "bad-qc-invalid")
            else if fJustCheck then retM ResOk
            else
              let rotation_enabled :=
                IsQuorumRotationEnabled E llmq_params pQuorumBaseBlockIndex in
              match pQuorumBaseBlockIndex with
              | None => crash (* [pQuorumBaseBlockIndex->nHeight] *)
              | Some base =>
                  let cacheKey := (type llmq_params, qHash) in
                  run db_write (KeyMinedCommitment (DB_MINED_COMMITMENT, cacheKey))
                        (ValCommitment qc blockHash);
                  run (if rotation_enabled then
                         db_write (KeyInversedHeightIndexed
                                     (BuildInversedHeightKeyIndexed (type llmq_params)
                                        height (quorumIndex qc)))
                           (ValHeight (nHeight base))
                       else
                         db_write (KeyInversedHeight
                                     (BuildInversedHeightKey (type llmq_params) height))
                           (ValHeight (nHeight base)));
                  run modify (set_cache (delete (llmqType qc, quorumHash qc)));
                  run modify (set_byQuorum (delete cacheKey));
                  run modify (set_minable (delete (SerializeHash E qc)));
                  retM ResOk
              end
  end.

(** The loop of [ProcessBlock] that compares, for every enabled committee
    type, the number of commitments in the block with the number required. *)
Fixpoint check_commitment_counts (E : Env) (pindex : CBlockIndex)
    (qcs : list (LLMQType * CFinalCommitment)) (enabled : list LLMQParams)
  : M CValidationResult :=
  match enabled with
  | [] => retM ResOk
  | params :: rest =>
      match ChainActive_Tip E with
      | None => retM ResOk (* replaying blocks after a crash: [break] *)
      | Some _ =>
          do numCommitmentsRequired <- GetNumCommitmentsRequired E params (nHeight pindex);
          let numCommitmentsInNewBlock := multimap_count (type params) qcs in
          if (numCommitmentsRequired <? numCommitmentsInNewBlock)%nat
          then retM (ResInvalid "bad-qc-not-allowed")
          else if (numCommitmentsInNewBlock <? numCommitmentsRequired)%nat
          then retM (ResInvalid "bad-qc-missing")
          else check_commitment_counts E pindex qcs rest
      end
  end.

(** The loop of [ProcessBlock] over the extracted commitments. *)
Fixpoint process_commitments (E : Env) (nHeight : Z) (blockHash : uint256)
    (fJustCheck fBLSChecks : bool) (qcs : list (LLMQType * CFinalCommitment))
  : M CValidationResult :=
  match qcs with
  | [] => retM ResOk
  | (_, qc) :: rest =>
      do r <- ProcessCommitment E nHeight blockHash qc fJustCheck fBLSChecks;
      match r with
      | ResOk => process_commitments E nHeight blockHash fJustCheck fBLSChecks rest
      | _ => retM r
      end
  end.

(** [ProcessBlock].  [PreComputeQuorumMembers] only warms a cache of another
    module and is left out. *)
Definition ProcessBlock (E : Env) (block : CBlock) (pindex : CBlockIndex)
    (fJustCheck fBLSChecks : bool) : M CValidationResult :=
  let fDIP0003Active := nHeight pindex >=? DIP0003Height E in
  if negb fDIP0003Active then
    run db_write best_block_key (ValHash (GetHash block));
    retM ResOk
  else
    run (if IsV19Active E (pprev pindex) then modify (set_bls false) else retM tt);
    match GetCommitmentsFromBlock E block pindex with
    | (ResOk, qcs) =>
        let blockHash := GetHash block in
        do counts <- check_commitment_counts E pindex qcs
                       (GetEnabledQuorumParams E (pprev pindex));
        match counts with
        | ResOk =>
            do r <- process_commitments E (nHeight pindex) blockHash fJustCheck fBLSChecks qcs;
            match r with
            | ResOk =>
                run db_write best_block_key (ValHash blockHash);
                retM ResOk
            | _ => retM r
            end
        | _ => retM counts
        end
    | (r, _) => retM r
    end.

(** The body of the loop of [UndoBlock] for one commitment. *)
Definition undo_commitment (E : Env) (pindex : CBlockIndex) (qc : CFinalCommitment)
  : M unit :=
  if IsNull qc then retM tt
  else
    run db_erase (KeyMinedCommitment (DB_MINED_COMMITMENT, (llmqType qc, quorumHash qc)));
    match GetLLMQParams E (llmqType qc) with
    | None => crash (* [assert(llmq_params_opt.has_value())] *)
    | Some llmq_params =>
        run (if IsQuorumRotationEnabled E llmq_params (Some pindex) then
               db_erase (KeyInversedHeightIndexed
                           (BuildInversedHeightKeyIndexed (llmqType qc) (nHeight pindex)
                              (quorumIndex qc)))
             else
               db_erase (KeyInversedHeight
                           (BuildInversedHeightKey (llmqType qc) (nHeight pindex))));
        run modify (set_cache (delete (llmqType qc, quorumHash qc)));
        AddMineableCommitment E qc
    end.

Fixpoint undo_commitments (E : Env) (pindex : CBlockIndex)
    (qcs : list (LLMQType * CFinalCommitment)) : M unit :=
  match qcs with
  | [] => retM tt
  | (_, qc) :: rest =>
      run undo_commitment E pindex qc;
      undo_commitments E pindex rest
  end.

(** [UndoBlock]. *)
Definition UndoBlock (E : Env) (block : CBlock) (pindex : CBlockIndex) : M bool :=
  run (if negb (IsV19Active E (pprev pindex)) then modify (set_bls true) else retM tt);
  match GetCommitmentsFromBlock E block pindex with
  | (ResOk, qcs) =>
      run undo_commitments E pindex qcs;
      match pprev pindex with
      | None => crash (* [pindex->pprev->GetBlockHash()] *)
      | Some prev =>
          run db_write best_block_key (ValHash (phashBlock prev));
          retM true
      end
  | _ => retM false
  end.

(** ** Queries over the reverse indexes *)

(** The database iterator: the entries in bytewise key order, and [Seek]. *)
Fixpoint insert_entry (e : DbKey * DbValue) (l : list (DbKey * DbValue))
  : list (DbKey * DbValue) :=
  match l with
  | [] => [e]
  | e' :: rest =>
      if bytes_ltb (ser_key (fst e')) (ser_key (fst e))
      then e' :: insert_entry e rest else e :: l
  end.

Definition db_entries (db : gmap DbKey DbValue) : list (DbKey * DbValue) :=
  foldr insert_entry [] (map_to_list db).

Fixpoint Seek (firstKey : DbKey) (it : list (DbKey * DbValue)) : list (DbKey * DbValue) :=
  match it with
  | [] => []
  | e :: rest =>
      if bytes_ltb (ser_key (fst e)) (ser_key firstKey) then Seek firstKey rest else it
  end.

(** [GetValue] into an [int]. *)
Definition GetValue_int (v : DbValue) : option Z :=
  match v with
  | ValHeight quorumHeight => Some quorumHeight
  | _ => None
  end.

(** The loop of [GetMinedCommitmentsUntilBlock]; [None] is the failure of
    [assert(pQuorumBaseBlockIndex)]. *)
Fixpoint mined_until_loop (llmqType : LLMQType) (pindex : CBlockIndex) (maxCount : nat)
    (lastKey : string * LLMQType * Z) (it : list (DbKey * DbValue))
    (ret : list CBlockIndex) : option (list CBlockIndex) :=
  match it with
  | [] => Some ret
  | (k, v) :: rest =>
      if negb (length ret <? maxCount)%nat then Some ret
      else
        match GetKey_inversed (ser_key k) with
        | None => Some ret
        | Some curKey =>
            if negb (tuple3_ltb curKey lastKey) then Some ret
            else
              let '(tag, t, be) := curKey in
              if negb (String.eqb tag DB_MINED_COMMITMENT_BY_INVERSED_HEIGHT)
                 || negb (t =? llmqType)
              then Some ret
              else
                let nMinedHeight := (UINT32_MAX - be32toh be) mod 4294967296 in
                if nMinedHeight >? nHeight pindex mod 4294967296 then Some ret
                else
                  match GetValue_int v with
                  | None => Some ret
                  | Some quorumHeight =>
                      match GetAncestor pindex quorumHeight with
                      | None => None
                      | Some pQuorumBaseBlockIndex =>
                          mined_until_loop llmqType pindex maxCount lastKey rest
                            (ret ++ [pQuorumBaseBlockIndex])
                      end
                  end
        end
  end.

(** [GetMinedCommitmentsUntilBlock]: most recent first. *)
Definition GetMinedCommitmentsUntilBlock (s : State) (llmqType : LLMQType)
    (pindex : CBlockIndex) (maxCount : nat) : option (list CBlockIndex) :=
  let firstKey := BuildInversedHeightKey llmqType (nHeight pindex) in
  let lastKey := BuildInversedHeightKey llmqType 0 in
  mined_until_loop llmqType pindex maxCount lastKey
    (Seek (KeyInversedHeight firstKey) (db_entries (evoDb s))) [].






(** ** Invariants of the state *)

(** The existence cache agrees with the database. *)
Definition cache_coherent (s : State) : Prop :=
  forall t h b,
    mapHasMinedCommitmentCache s !! (t, h) = Some b ->
    b = bool_decide (is_Some (evoDb s !! mined_key t h)).

(** Every slot of the pool points to a stored candidate. *)
Definition pool_linked (s : State) : Prop :=
  forall k hash,
    minableCommitmentsByQuorum s !! k = Some hash ->
    is_Some (minableCommitments s !! hash).

(** Every commitment recorded in the database is non-null. *)
Definition db_nonnull (s : State) : Prop :=
  forall k qc bh, evoDb s !! k = Some (ValCommitment qc bh) -> IsNull qc = false.

(** ** Vocabulary of the statements *)

Definition is_byte (b : Z) : Prop := 0 <= b < 256.
Definition of_bytes4 (b3 b2 b1 b0 : Z) : Z :=
  b3 * 16777216 + b2 * 65536 + b1 * 256 + b0.

(** The result and the final state of a run; the state is [s0] when the run
    has crashed. *)
Definition outcome_value {A} (o : Outcome A) : option A :=
  match o with
  | Done a _ => Some a
  | Crash => None
  end.

Definition outcome_state {A} (o : Outcome A) (s0 : State) : State :=
  match o with
  | Done _ s => s
  | Crash => s0
  end.

(** [returns m s Q]: run from [s], [m] returns, and the result and the final
    state satisfy [Q].  [ensures m s Q]: if it returns, they do. *)
Definition returns {A} (m : M A) (s : State) (Q : A -> State -> Prop) : Prop :=
  exists a s', m s = Done a s' /\ Q a s'.

Definition ensures {A} (m : M A) (s : State) (Q : A -> State -> Prop) : Prop :=
  forall a s', m s = Done a s' -> Q a s'.

(** A confirmed commitment of the slot is recorded in the database. *)
Definition is_confirmed (db : gmap DbKey DbValue) (t : LLMQType) (h : uint256) : bool :=
  bool_decide (is_Some (db !! mined_key t h)).

(** The only change from [s] to [s'] is that the existence cache may have
    learnt new entries, each of them the answer of the database. *)
Definition cache_grows (s s' : State) : Prop :=
  evoDb s' = evoDb s
  /\ mapHasMinedCommitmentCache s ⊆ mapHasMinedCommitmentCache s'
  /\ minableCommitmentsByQuorum s' = minableCommitmentsByQuorum s
  /\ minableCommitments s' = minableCommitments s
  /\ relayed s' = relayed s
  /\ bls_legacy_scheme s' = bls_legacy_scheme s
  /\ (forall t h b,
         mapHasMinedCommitmentCache s' !! (t, h) = Some b ->
         mapHasMinedCommitmentCache s !! (t, h) = Some b
         \/ b = is_confirmed (evoDb s) t h).

(** The mining window as the specification words it:
    [CycleStart + miningWindowStart <= height <= CycleStart + miningWindowEnd]. *)
Definition CycleStart (llmqParams : LLMQParams) (height : Z) : Z :=
  height - Z.rem height (dkgInterval llmqParams).

Definition in_mining_window (llmqParams : LLMQParams) (height : Z) : bool :=
  (CycleStart llmqParams height + dkgMiningWindowStart llmqParams <=? height)
  && (height <=? CycleStart llmqParams height + dkgMiningWindowEnd llmqParams).

(** A sub-index still needs a commitment: its committee block hash is known
    and no commitment of the slot is confirmed. *)
Definition slot_open (E : Env) (llmqParams : LLMQParams) (height : Z)
    (db : gmap DbKey DbValue) (quorumIndex : Z) : bool :=
  negb (GetQuorumBlockHash E llmqParams height quorumIndex =? 0)
  && negb (is_confirmed db (type llmqParams)
             (GetQuorumBlockHash E llmqParams height quorumIndex)).

(** The block at which rotation is evaluated for a height: the tip for a new
    block, the ancestor of the tip otherwise. *)
Definition rotation_block (E : Env) (height : Z) : option CBlockIndex :=
  if ChainActive_Height E <? height then ChainActive_Tip E
  else tip ← ChainActive_Tip E; GetAncestor tip height.

(** [RequiredCommitmentCount] of the specification. *)
Definition RequiredCommitmentCount (E : Env) (llmqParams : LLMQParams) (height : Z)
    (db : gmap DbKey DbValue) : nat :=
  if in_mining_window llmqParams height then
    length (List.filter (slot_open E llmqParams height db)
              (irange (quorums_num
                         (IsQuorumRotationEnabled E llmqParams (rotation_block E height))
                         llmqParams)))
  else 0%nat.

(** The commitments carried by a list of transactions, in block order. *)
Fixpoint block_commitments (txs : list CTransaction) : list CFinalCommitment :=
  match txs with
  | [] => []
  | tx :: rest =>
      if nType tx =? TRANSACTION_QUORUM_COMMITMENT then
        match GetTxPayload tx with
        | Some payload => commitment payload :: block_commitments rest
        | None => block_commitments rest
        end
      else block_commitments rest
  end.

(** Every commitment transaction decodes and names a known committee type:
    what the earlier stages of block validation have checked (the two
    failures "should not happen" in [GetCommitmentsFromBlock]). *)
Definition payloads_checked (E : Env) (txs : list CTransaction) : Prop :=
  Forall (fun tx =>
            nType tx = TRANSACTION_QUORUM_COMMITMENT ->
            exists payload,
              GetTxPayload tx = Some payload
              /\ is_Some (GetLLMQParams E (llmqType (commitment payload)))) txs.

(** Rotation is active for a committee type at a block. *)
Definition rotation_active (E : Env) (pindex : CBlockIndex) (t : LLMQType) : bool :=
  match GetLLMQParams E t with
  | Some llmq_params => IsQuorumRotationEnabled E llmq_params (Some pindex)
  | None => false
  end.

(** No committee type without rotation occurs twice in a list of types. *)
Definition one_per_type (E : Env) (pindex : CBlockIndex) (types : list LLMQType) : Prop :=
  NoDup (filter (fun t => rotation_active E pindex t = false) types).

Definition multimap_of (qcs : list CFinalCommitment) : list (LLMQType * CFinalCommitment) :=
  map (fun qc => (llmqType qc, qc)) qcs.

(** The reverse-index key a commitment is filed under when mined at a
    height: the per-index key with rotation, the flat key without. *)
Definition reverse_key (rotation_enabled : bool) (t : LLMQType) (minedHeight : Z)
    (quorumIndex : Z) : DbKey :=
  if rotation_enabled
  then KeyInversedHeightIndexed (BuildInversedHeightKeyIndexed t minedHeight quorumIndex)
  else KeyInversedHeight (BuildInversedHeightKey t minedHeight).

(** The state after the writes of [ProcessCommitment] for a commitment whose
    committee block is [base]: the primary record, one reverse-index entry,
    and the eviction from the cache and the pool. *)
Definition committed (E : Env) (llmq_params : LLMQParams) (height : Z)
    (blockHash : uint256) (qc : CFinalCommitment) (base : CBlockIndex) (s : State) : State :=
  set_minable (delete (SerializeHash E qc))
    (set_byQuorum (delete (type llmq_params, quorumHash qc))
       (set_cache (delete (llmqType qc, quorumHash qc))
          (set_evoDb
             (insert (reverse_key
                        (IsQuorumRotationEnabled E llmq_params (Some base))
                        (type llmq_params) height (quorumIndex qc))
                (ValHeight (nHeight base)))
             (set_evoDb
                (insert (mined_key (type llmq_params) (quorumHash qc))
                   (ValCommitment qc blockHash)) s)))).

(** The committee block hash [ProcessCommitment] expects of a commitment. *)
Definition expected_quorum_hash (E : Env) (llmq_params : LLMQParams) (height : Z)
    (qc : CFinalCommitment) : uint256 :=
  match ChainActive_Tip E with
  | None => quorumHash qc
  | Some _ => GetQuorumBlockHash E llmq_params height (quorumIndex qc)
  end.

(** The verdict of the count check as a function of the database: the first
    enabled committee type whose number of commitments in the block differs
    from the required number decides. *)
Fixpoint counts_verdict (E : Env) (height : Z) (qcs : list (LLMQType * CFinalCommitment))
    (db : gmap DbKey DbValue) (enabled : list LLMQParams) : CValidationResult :=
  match enabled with
  | [] => ResOk
  | params :: rest =>
      let required := RequiredCommitmentCount E params height db in
      let in_block := multimap_count (type params) qcs in
      if (required <? in_block)%nat then ResInvalid "bad-qc-not-allowed"
      else if (in_block <? required)%nat then ResInvalid "bad-qc-missing"
      else counts_verdict E height qcs db rest
  end.

(** The number of commitments of a type in the block is the required one. *)
Definition count_matches (E : Env) (height : Z) (qcs : list (LLMQType * CFinalCommitment))
    (db : gmap DbKey DbValue) (params : LLMQParams) : Prop :=
  multimap_count (type params) qcs = RequiredCommitmentCount E params height db.

(** The first step of [ProcessBlock] above the activation height. *)
Definition after_bls_switch (E : Env) (pindex : CBlockIndex) (s : State) : State :=
  if IsV19Active E (pprev pindex) then set_bls false s else s.

(** What an accepted commitment has passed: its committee type is known, its
    committee hash is the expected non-null one, a null commitment carries
    its null proof, a non-null one is inside the mining window and verifies. *)
Definition commitment_valid (E : Env) (h : Z) (fBLSChecks : bool)
    (qc : CFinalCommitment) : Prop :=
  exists p,
    GetLLMQParams E (llmqType qc) = Some p
    /\ expected_quorum_hash E p h qc = quorumHash qc
    /\ quorumHash qc <> 0
    /\ (IsNull qc = true -> VerifyNull E qc = true)
    /\ (IsNull qc = false ->
        in_mining_window p h = true
        /\ Verify E qc (LookupBlockIndex E (quorumHash qc)) fBLSChecks = true).



(** Every commitment record of [s'] is a record of [s] or is non-null. *)
Definition new_records_nonnull (s s' : State) : Prop :=
  forall k qc bh,
    evoDb s' !! k = Some (ValCommitment qc bh) ->
    evoDb s !! k = Some (ValCommitment qc bh) \/ IsNull qc = false.

(** ** Vocabulary of undo exactness *)












(** ** A small chain and parameter set, used to run the functions *)

Definition ex_params : LLMQParams :=
  {| type := 1; dkgInterval := 24; dkgMiningWindowStart := 5;
     dkgMiningWindowEnd := 10; signingActiveQuorumCount := 2 |}.

(** Blocks [0 .. n], the block at height [h] has hash [1000 + h]. *)
Fixpoint ex_chain (n : nat) : CBlockIndex :=
  match n with
  | O => mkBlockIndex 0 1000 None
  | S n' => mkBlockIndex (Z.of_nat n) (1000 + Z.of_nat n) (Some (ex_chain n'))
  end.

Definition ex_lookup (h : uint256) : option CBlockIndex :=
  if (1000 <=? h) && (h <=? 1100) then GetAncestor (ex_chain 100) (h - 1000) else None.

(** An environment whose active chain ends at height [tip]. *)
Definition ex_env (tip : nat) (rotation : bool) (activation : Z) : Env :=
  {| DIP0003Height := activation;
     llmqs := [ex_params];
     ChainActive_Tip := Some (ex_chain tip);
     LookupBlockIndex := ex_lookup;
     GetEnabledQuorumParams := fun _ => [ex_params];
     IsQuorumRotationEnabled := fun _ _ => rotation;
     IsV19Active := fun _ => false;
     Verify := fun _ _ _ => true;
     VerifyNull := fun _ => true;
     SerializeHash := fun qc => 7000 + 100 * quorumHash qc + CountSigners qc;
     GetVersion := fun r b => if r then (if b then 4 else 2) else (if b then 3 else 1) |}.

Definition ex_state : State :=
  {| evoDb := ∅; mapHasMinedCommitmentCache := ∅; minableCommitmentsByQuorum := ∅;
     minableCommitments := ∅; relayed := []; bls_legacy_scheme := true |}.

Definition ex_commitment (qhash : uint256) (qindex : Z) (sig : list bool) : CFinalCommitment :=
  {| nVersion := 1; llmqType := 1; quorumHash := qhash; quorumIndex := qindex;
     signers := sig; validMembers := sig;
     quorumPublicKey := Some 1; quorumSig := Some 1 |}.

Definition ex_tx (qc : CFinalCommitment) : CTransaction :=
  {| nType := TRANSACTION_QUORUM_COMMITMENT;
     txPayload := Some {| payload_nVersion := 1; payload_nHeight := 0; commitment := qc |} |}.

(** Two blocks used to run extraction: two commitments of type 1 for the
    sub-indexes 0 and 1 of the cycle starting at height 24. *)
Definition ex_qc0 : CFinalCommitment := ex_commitment 1024 0 [true; true; false].
Definition ex_qc1 : CFinalCommitment := ex_commitment 1025 1 [true; true; true].

Definition ex_block_two : CBlock :=
  {| GetHash := 1029; vtx := [ex_tx ex_qc0; ex_tx ex_qc1] |}.

Definition ex_block_one : CBlock :=
  {| GetHash := 1029; vtx := [ex_tx ex_qc0] |}.

Definition ex_block_empty : CBlock := {| GetHash := 1029; vtx := [] |}.

(** A null commitment for the slot of sub-index 0 at height 24. *)
Definition ex_null : CFinalCommitment :=
  set_index_version (CFinalCommitment_null ex_params 1024) 0 1.

Definition ex_block_null : CBlock := {| GetHash := 1029; vtx := [ex_tx ex_null] |}.

(** A replay after a crash: no active chain yet, the block of height 0 is
    applied again; the mining window of the committee type starts with the
    cycle, and the block carries one commitment. *)
Definition ex_replay_params : LLMQParams :=
  {| type := 1; dkgInterval := 24; dkgMiningWindowStart := 0;
     dkgMiningWindowEnd := 10; signingActiveQuorumCount := 2 |}.

Definition ex_replay_env : Env :=
  {| DIP0003Height := 0;
     llmqs := [ex_replay_params];
     ChainActive_Tip := None;
     LookupBlockIndex := ex_lookup;
     GetEnabledQuorumParams := fun _ => [ex_replay_params];
     IsQuorumRotationEnabled := fun _ _ => false;
     IsV19Active := fun _ => false;
     Verify := fun _ _ _ => true;
     VerifyNull := fun _ => true;
     SerializeHash := fun qc => 7000 + 100 * quorumHash qc + CountSigners qc;
     GetVersion := fun r b => if r then (if b then 4 else 2) else (if b then 3 else 1) |}.

Definition ex_replay_block : CBlock :=
  {| GetHash := 1000; vtx := [ex_tx (ex_commitment 1000 0 [true; true; false])] |}.

(** Two blocks of successive cycles, each with the commitment of its cycle. *)
Definition ex_block_a : CBlock :=
  {| GetHash := 1029; vtx := [ex_tx (ex_commitment 1024 0 [true])] |}.

Definition ex_block_b : CBlock :=
  {| GetHash := 1053; vtx := [ex_tx (ex_commitment 1048 0 [true])] |}.




(** * Properties *)

(** ** Runs on concrete inputs *)

(** A run whose result is known ends in its final state. *)
Lemma outcome_eq {A} (o : Outcome A) (a : A) (s0 : State) :
  outcome_value o = Some a -> o = Done a (outcome_state o s0).
Proof. destruct o; cbn; congruence. Qed.

(** ** Key encoding *)

Section KeyEncoding.

Lemma uint32_bytes x :
  0 <= x < 4294967296 ->
  exists b3 b2 b1 b0,
    is_byte b3 /\ is_byte b2 /\ is_byte b1 /\ is_byte b0 /\ x = of_bytes4 b3 b2 b1 b0.
Proof.
  intros Hx.
  exists (x / 16777216), ((x / 65536) mod 256), ((x / 256) mod 256), (x mod 256).
  unfold is_byte, of_bytes4. repeat split; Z.div_mod_to_equations; lia.
Qed.

Lemma htobe32_bytes b3 b2 b1 b0 :
  is_byte b3 -> is_byte b2 -> is_byte b1 -> is_byte b0 ->
  htobe32 (of_bytes4 b3 b2 b1 b0) = of_bytes4 b0 b1 b2 b3.
Proof.
  unfold is_byte, of_bytes4, htobe32. intros.
  replace ((b3 * 16777216 + b2 * 65536 + b1 * 256 + b0) mod 256)
    with b0 by (Z.div_mod_to_equations; lia).
  replace ((b3 * 16777216 + b2 * 65536 + b1 * 256 + b0) / 256 mod 256)
    with b1 by (Z.div_mod_to_equations; lia).
  replace ((b3 * 16777216 + b2 * 65536 + b1 * 256 + b0) / 65536 mod 256)
    with b2 by (Z.div_mod_to_equations; lia).
  replace ((b3 * 16777216 + b2 * 65536 + b1 * 256 + b0) / 16777216 mod 256)
    with b3 by (Z.div_mod_to_equations; lia).
  lia.
Qed.

Lemma le_bytes4 b3 b2 b1 b0 :
  is_byte b3 -> is_byte b2 -> is_byte b1 -> is_byte b0 ->
  le_bytes 4 (of_bytes4 b3 b2 b1 b0) = [b0; b1; b2; b3].
Proof.
  unfold is_byte, of_bytes4. intros. cbn [le_bytes].
  repeat f_equal; Z.div_mod_to_equations; lia.
Qed.

(** The bytes written for a byte-swapped value are those of the value,
    most significant first. *)
Lemma ser_htobe32 x :
  0 <= x < 4294967296 ->
  ser_uint32 (htobe32 x)
  = [x / 16777216; (x / 65536) mod 256; (x / 256) mod 256; x mod 256].
Proof.
  intros Hx. destruct (uint32_bytes x Hx) as (b3 & b2 & b1 & b0 & ? & ? & ? & ? & ->).
  unfold ser_uint32. rewrite htobe32_bytes, le_bytes4 by done.
  unfold is_byte, of_bytes4 in *.
  repeat f_equal; Z.div_mod_to_equations; lia.
Qed.

Lemma htobe32_involutive x : 0 <= x < 4294967296 -> htobe32 (htobe32 x) = x.
Proof.
  intros Hx. destruct (uint32_bytes x Hx) as (b3 & b2 & b1 & b0 & ? & ? & ? & ? & ->).
  by rewrite !htobe32_bytes.
Qed.

Lemma htobe32_range x : 0 <= htobe32 x < 4294967296.
Proof. unfold htobe32. Z.div_mod_to_equations. lia. Qed.

Lemma deser_ser_htobe32 x rest :
  0 <= x < 4294967296 ->
  deser_uint32 (ser_uint32 (htobe32 x) ++ rest) = Some (htobe32 x, rest).
Proof.
  intros Hx. destruct (uint32_bytes x Hx) as (b3 & b2 & b1 & b0 & ? & ? & ? & ? & ->).
  unfold ser_uint32. rewrite htobe32_bytes, le_bytes4 by done.
  cbn. unfold of_bytes4. do 2 f_equal. lia.
Qed.

Lemma bytes_ltb_app p a b : bytes_ltb (p ++ a) (p ++ b) = bytes_ltb a b.
Proof.
  induction p as [|x p IH]; [done|].
  cbn [app bytes_ltb]. by rewrite Z.ltb_irrefl, Z.eqb_refl, IH.
Qed.

Lemma bytes_ltb_be32 x y :
  0 <= x < 4294967296 -> 0 <= y < 4294967296 ->
  bytes_ltb (ser_uint32 (htobe32 x)) (ser_uint32 (htobe32 y)) = bool_decide (x < y).
Proof.
  intros Hx Hy.
  destruct (uint32_bytes x Hx) as (x3 & x2 & x1 & x0 & ? & ? & ? & ? & ->).
  destruct (uint32_bytes y Hy) as (y3 & y2 & y1 & y0 & ? & ? & ? & ? & ->).
  unfold ser_uint32. rewrite !htobe32_bytes, !le_bytes4 by done. cbn [bytes_ltb].
  unfold is_byte, of_bytes4 in *.
  case_bool_decide;
    repeat match goal with
           | |- context [?a <? ?b] => destruct (Z.ltb_spec a b)
           | |- context [?a =? ?b] => destruct (Z.eqb_spec a b)
           end; cbn; try reflexivity; exfalso; lia.
Qed.

Lemma inversed_height_range h : 0 <= inversed_height h < 4294967296.
Proof. unfold inversed_height. Z.div_mod_to_equations. lia. Qed.

Lemma inversed_height_small h :
  0 <= h < 4294967296 -> inversed_height h = UINT32_MAX - h.
Proof. intros. unfold inversed_height, UINT32_MAX. apply Z.mod_small. lia. Qed.

(** Form of the three kinds of keys: a fixed tag, then the fields. *)
Lemma ser_inversed_key_eq t h :
  ser_inversed_key (BuildInversedHeightKey t h)
  = [6; 113; 95; 109; 99; 105; 104] ++ [t mod 256]
    ++ ser_uint32 (htobe32 (inversed_height h)).
Proof. reflexivity. Qed.

Lemma ser_inversed_key_indexed_eq t h qi :
  ser_inversed_key_indexed (BuildInversedHeightKeyIndexed t h qi)
  = [7; 113; 95; 109; 99; 105; 104; 105] ++ [t mod 256]
    ++ ser_int32 qi ++ ser_uint32 (htobe32 (inversed_height h)).
Proof. reflexivity. Qed.

Lemma GetKey_inversed_built t h :
  GetKey_inversed (ser_inversed_key (BuildInversedHeightKey t h))
  = Some (DB_MINED_COMMITMENT_BY_INVERSED_HEIGHT, t mod 256,
          htobe32 (inversed_height h)).
Proof.
  rewrite ser_inversed_key_eq. unfold GetKey_inversed, deser_string.
  cbn -[deser_uint32 ser_uint32 htobe32 Z.to_nat].
  change (Z.to_nat 6) with 6%nat. cbn -[deser_uint32 ser_uint32 htobe32].
  rewrite <- (app_nil_r (ser_uint32 _)).
  by rewrite deser_ser_htobe32 by apply inversed_height_range.
Qed.

End KeyEncoding.

(** C6.  For mined heights [h1], [h2] that fit in 32 bits, the flat key (and,
    for one sub-index, the indexed key) of [h2] is bytewise below the key of
    [h1] exactly when [h1 < h2]: ascending key order is descending mined
    height.  Reading a key back and computing [UINT32_MAX - be32toh(...)] as
    [GetMinedCommitmentsUntilBlock] does gives the mined height again. *)
Theorem inversed_height_key_order_and_roundtrip (t qi h1 h2 : Z) :
  0 <= h1 < 4294967296 ->
  0 <= h2 < 4294967296 ->
  (bytes_ltb (ser_inversed_key (BuildInversedHeightKey t h2))
             (ser_inversed_key (BuildInversedHeightKey t h1)) = true <-> h1 < h2)
  /\ (bytes_ltb (ser_inversed_key_indexed (BuildInversedHeightKeyIndexed t h2 qi))
                (ser_inversed_key_indexed (BuildInversedHeightKeyIndexed t h1 qi)) = true
      <-> h1 < h2)
  /\ (exists tag t' be,
        GetKey_inversed (ser_inversed_key (BuildInversedHeightKey t h1)) = Some (tag, t', be)
        /\ (UINT32_MAX - be32toh be) mod 4294967296 = h1)
  /\ (UINT32_MAX - be32toh (snd (BuildInversedHeightKeyIndexed t h1 qi))) mod 4294967296 = h1.
Proof.
  intros H1 H2.
  assert (Hdec : (UINT32_MAX - be32toh (htobe32 (inversed_height h1))) mod 4294967296 = h1).
  { unfold be32toh. rewrite htobe32_involutive by apply inversed_height_range.
    rewrite inversed_height_small by done. unfold UINT32_MAX.
    rewrite Z.mod_small; lia. }
  assert (Hlt : bytes_ltb (ser_uint32 (htobe32 (inversed_height h2)))
                  (ser_uint32 (htobe32 (inversed_height h1))) = true <-> h1 < h2).
  { rewrite bytes_ltb_be32 by apply inversed_height_range.
    rewrite !inversed_height_small by done. unfold UINT32_MAX.
    rewrite bool_decide_eq_true. lia. }
  split; [|split; [|split]].
  - rewrite !ser_inversed_key_eq, !app_assoc. by rewrite bytes_ltb_app.
  - rewrite !ser_inversed_key_indexed_eq, !app_assoc. by rewrite bytes_ltb_app.
  - eexists _, _, _. split; [apply GetKey_inversed_built|]. exact Hdec.
  - exact Hdec.
Qed.

Lemma inversed_height_key_order_and_roundtrip_witness :
  (bytes_ltb (ser_inversed_key (BuildInversedHeightKey 1 30))
             (ser_inversed_key (BuildInversedHeightKey 1 29)) = true <-> 29 < 30)
  /\ (bytes_ltb (ser_inversed_key_indexed (BuildInversedHeightKeyIndexed 1 30 2))
                (ser_inversed_key_indexed (BuildInversedHeightKeyIndexed 1 29 2)) = true
      <-> 29 < 30)
  /\ (exists tag t' be,
        GetKey_inversed (ser_inversed_key (BuildInversedHeightKey 1 29)) = Some (tag, t', be)
        /\ (UINT32_MAX - be32toh be) mod 4294967296 = 29)
  /\ (UINT32_MAX - be32toh (snd (BuildInversedHeightKeyIndexed 1 29 2))) mod 4294967296 = 29.
Proof. apply (inversed_height_key_order_and_roundtrip 1 2 29 30); lia. Defined.

(** Two blocks mined at heights 29 and 53: the scan from height 53 returns
    the committee blocks newest first, the scan from height 52 only the
    older one, and [maxCount] cuts the result. *)
Example mined_commitments_newest_first :
  exists s1 s2,
    ProcessBlock (ex_env 28 false 10) ex_block_a (ex_chain 29) false true ex_state
    = Done ResOk s1
    /\ ProcessBlock (ex_env 52 false 10) ex_block_b (ex_chain 53) false true s1
       = Done ResOk s2
    /\ option_map (map nHeight) (GetMinedCommitmentsUntilBlock s2 1 (ex_chain 53) 5)
       = Some [48; 24]
    /\ option_map (map nHeight) (GetMinedCommitmentsUntilBlock s2 1 (ex_chain 52) 5)
       = Some [24]
    /\ option_map (map nHeight) (GetMinedCommitmentsUntilBlock s2 1 (ex_chain 53) 1)
       = Some [48].
Proof.
  eexists _, _. split; [apply (outcome_eq _ _ ex_state); vm_compute; reflexivity|].
  split; [apply (outcome_eq _ _ ex_state); vm_compute; reflexivity|].
  repeat split; vm_compute; reflexivity.
Qed.

(** ** Reasoning about state transformers *)

Lemma bind_Done {A B} (m : M A) (k : A -> M B) s b s'' :
  bind m k s = Done b s'' <-> exists a s', m s = Done a s' /\ k a s' = Done b s''.
Proof.
  unfold bind. split.
  - destruct (m s) as [a s'|]; [eauto | discriminate].
  - intros (a & s' & -> & Hk). exact Hk.
Qed.

Lemma returns_bind {A B} (m : M A) (k : A -> M B) s Q :
  returns m s (fun a s' => returns (k a) s' Q) -> returns (bind m k) s Q.
Proof.
  intros (a & s' & Hm & b & s'' & Hk & HQ). exists b, s''.
  split; [|done]. apply bind_Done. eauto.
Qed.

Lemma returns_ret {A} (a : A) s (Q : A -> State -> Prop) : Q a s -> returns (retM a) s Q.
Proof. intros HQ. by exists a, s. Qed.

Lemma returns_weaken {A} (m : M A) s (Q Q' : A -> State -> Prop) :
  returns m s Q -> (forall a s', Q a s' -> Q' a s') -> returns m s Q'.
Proof. intros (a & s' & Hm & HQ) HQQ. exists a, s'. eauto. Qed.

Lemma ensures_bind {A B} (m : M A) (k : A -> M B) s Q :
  ensures m s (fun a s' => ensures (k a) s' Q) -> ensures (bind m k) s Q.
Proof.
  intros Hm b s'' Hb. apply bind_Done in Hb as (a & s' & Ha & Hk).
  exact (Hm a s' Ha b s'' Hk).
Qed.

Lemma ensures_ret {A} (a : A) s (Q : A -> State -> Prop) : Q a s -> ensures (retM a) s Q.
Proof. intros HQ a' s' [= <- <-]. exact HQ. Qed.

Lemma ensures_crash {A} s (Q : A -> State -> Prop) : ensures crash s Q.
Proof. intros a s' [=]. Qed.

Lemma ensures_weaken {A} (m : M A) s (Q Q' : A -> State -> Prop) :
  ensures m s Q -> (forall a s', Q a s' -> Q' a s') -> ensures m s Q'.
Proof. intros Hm HQQ a s' Ha. eauto. Qed.

Lemma returns_ensures {A} (m : M A) s (Q : A -> State -> Prop) :
  returns m s Q -> ensures m s Q.
Proof. intros (a & s' & Hm & HQ) a' s'' Ha. congruence. Qed.

Lemma cache_grows_refl s : cache_grows s s.
Proof. repeat split; auto. Qed.

Lemma cache_grows_trans s1 s2 s3 :
  cache_grows s1 s2 -> cache_grows s2 s3 -> cache_grows s1 s3.
Proof.
  intros (Hdb & ? & ? & ? & ? & ? & Hnew) (? & ? & ? & ? & ? & ? & Hnew').
  repeat split; try congruence; [by etrans|].
  intros t h b Hc. destruct (Hnew' t h b Hc) as [Hc2|Hb].
  - by apply Hnew.
  - right. by rewrite <- Hdb.
Qed.

Lemma cache_grows_coherent s s' : cache_grows s s' -> cache_coherent s -> cache_coherent s'.
Proof.
  intros (Hdb & _ & _ & _ & _ & _ & Hnew) Hs t h b Hc. rewrite Hdb.
  destruct (Hnew t h b Hc) as [Hold|]; [by apply Hs | done].
Qed.

#[local] Hint Resolve cache_grows_refl : core.

(** ** Scheduler *)

Section Scheduler.
Context (E : Env).

(** The existence check always returns and changes nothing but the cache. *)
Lemma HasMinedCommitment_returns t h s :
  returns (HasMinedCommitment t h) s (fun _ s' => cache_grows s s').
Proof.
  unfold returns, HasMinedCommitment.
  destruct (mapHasMinedCommitmentCache s !! (t, h)) as [b|] eqn:Hc.
  - eauto.
  - eexists _, _. split; [done|]. repeat split; cbn.
    + by apply insert_subseteq.
    + intros t' h' b' Hl.
      destruct (decide ((t, h) = (t', h'))) as [[= <- <-]|Hne].
      * rewrite lookup_insert_eq in Hl. injection Hl as <-. by right.
      * rewrite lookup_insert_ne in Hl by done. by left.
Qed.

(** With a coherent cache it answers what the database holds. *)
Lemma HasMinedCommitment_coherent t h s :
  cache_coherent s ->
  returns (HasMinedCommitment t h) s
    (fun b s' => b = is_confirmed (evoDb s) t h /\ cache_grows s s' /\ cache_coherent s').
Proof.
  intros Hs. destruct (HasMinedCommitment_returns t h s) as (b & s' & Hrun & Hg).
  exists b, s'. split; [done|]. split; [|split; [done | by eapply cache_grows_coherent]].
  unfold HasMinedCommitment in Hrun.
  destruct (mapHasMinedCommitmentCache s !! (t, h)) as [b'|] eqn:Hc.
  - injection Hrun as <- _. by apply Hs.
  - by injection Hrun as <- _.
Qed.

Lemma IsMiningPhase_eq p h s :
  IsMiningPhase E p h s
  = if h <=? ChainActive_Height E + 1 then Done (in_mining_window p h) s else Crash.
Proof.
  unfold IsMiningPhase, bind, assert, in_mining_window, CycleStart.
  destruct (h <=? ChainActive_Height E + 1); [|done]. cbn.
  rewrite Z.geb_leb.
  by destruct (_ && _).
Qed.

Lemma tip_or_ancestor_eq h s :
  0 <= h ->
  tip_or_ancestor E h s = Done (rotation_block E h) s.
Proof.
  intros Hh. unfold tip_or_ancestor, rotation_block, ChainActive_Height.
  destruct (ChainActive_Tip E) as [tip|] eqn:Htip; cbn.
  - by destruct (_ <? _).
  - destruct (Z.ltb_spec (-1) h); [done | lia].
Qed.

Lemma count_required_returns p h idxs acc s :
  returns (count_required E p h idxs acc) s (fun _ s' => cache_grows s s').
Proof.
  revert acc s. induction idxs as [|qi idxs IH]; intros acc s; cbn [count_required].
  - by apply returns_ret.
  - destruct (_ =? 0); [apply IH|].
    apply returns_bind.
    eapply returns_weaken; [apply HasMinedCommitment_returns|].
    intros b s' Hg. cbn beta.
    eapply returns_weaken; [apply IH|].
    intros n s'' Hg'. exact (cache_grows_trans _ _ _ Hg Hg').
Qed.

Lemma count_required_coherent p h idxs acc s :
  cache_coherent s ->
  returns (count_required E p h idxs acc) s
    (fun n s' =>
       n = (acc + length (List.filter (slot_open E p h (evoDb s)) idxs))%nat
       /\ cache_grows s s' /\ cache_coherent s').
Proof.
  revert acc s. induction idxs as [|qi idxs IH]; intros acc s Hs; cbn [count_required].
  - apply returns_ret. cbn. split; [lia | auto].
  - cbn [List.filter].
    assert (Ho : slot_open E p h (evoDb s) qi
                 = negb (GetQuorumBlockHash E p h qi =? 0)
                   && negb (is_confirmed (evoDb s) (type p)
                              (GetQuorumBlockHash E p h qi))) by done.
    rewrite Ho. clear Ho.
    destruct (GetQuorumBlockHash E p h qi =? 0) eqn:Hq; cbn [negb andb].
    + by apply IH.
    + apply returns_bind.
      eapply returns_weaken; [by apply HasMinedCommitment_coherent|].
      intros b s' (-> & Hg & Hs'). cbn beta.
      eapply returns_weaken; [by apply IH|].
      intros n s'' (-> & Hg' & Hs''). cbn beta.
      split; [|split; [exact (cache_grows_trans _ _ _ Hg Hg') | done]].
      destruct Hg as (-> & _).
      destruct (is_confirmed _ _ _); cbn; lia.
Qed.

Lemma GetNumCommitmentsRequired_ensures p h s :
  ensures (GetNumCommitmentsRequired E p h) s (fun _ s' => cache_grows s s').
Proof.
  unfold GetNumCommitmentsRequired. intros n s' Hrun.
  apply bind_Done in Hrun as (mining & s1 & Hm & Hrun).
  rewrite IsMiningPhase_eq in Hm. destruct (h <=? _); [|done].
  injection Hm as <- <-.
  destruct (in_mining_window p h); cbn [negb] in Hrun.
  - apply bind_Done in Hrun as ([] & s2 & Ha & Hrun).
    unfold assert, retM in Ha. injection Ha as <-.
    apply bind_Done in Hrun as (pindex & s3 & Ht & Hrun).
    assert (s3 = s) as ->.
    { unfold tip_or_ancestor in Ht. destruct (_ <? _); [by injection Ht|].
      destruct (ChainActive_Tip E); [by injection Ht | done]. }
    destruct (count_required_returns p h
                (irange (quorums_num (IsQuorumRotationEnabled E p pindex) p)) 0%nat s)
      as (n' & s'' & Hc & Hg).
    rewrite Hc in Hrun. by injection Hrun as <- <-.
  - injection Hrun as <- <-. done.
Qed.

Lemma GetNumCommitmentsRequired_coherent p h s :
  cache_coherent s -> 0 <= h -> h <= ChainActive_Height E + 1 ->
  returns (GetNumCommitmentsRequired E p h) s
    (fun n s' =>
       n = RequiredCommitmentCount E p h (evoDb s)
       /\ cache_grows s s' /\ cache_coherent s').
Proof.
  intros Hs Hh0 Hh. unfold GetNumCommitmentsRequired, RequiredCommitmentCount.
  assert (Hle : (h <=? ChainActive_Height E + 1) = true) by (apply Z.leb_le; lia).
  apply returns_bind. exists (in_mining_window p h), s.
  split; [by rewrite IsMiningPhase_eq, Hle|].
  destruct (in_mining_window p h); cbn [negb].
  - apply returns_bind. exists tt, s. split; [by unfold assert; rewrite Hle|].
    apply returns_bind. exists (rotation_block E h), s.
    split; [by apply tip_or_ancestor_eq|].
    eapply returns_weaken; [by apply count_required_coherent|].
    intros n s' (-> & Hg & Hs'). done.
  - apply returns_ret. auto.
Qed.

End Scheduler.

Lemma cache_coherent_empty_cache s :
  mapHasMinedCommitmentCache s = ∅ -> cache_coherent s.
Proof. intros Hc t h b. rewrite Hc, lookup_empty. discriminate. Qed.

(** The worked example of the specification: interval 24, window 5..10. *)
Example mining_window_example :
  CycleStart ex_params 29 = 24
  /\ in_mining_window ex_params 29 = true
  /\ in_mining_window ex_params 34 = true
  /\ in_mining_window ex_params 28 = false
  /\ in_mining_window ex_params 35 = false
  /\ in_mining_window ex_params 40 = false
  /\ RequiredCommitmentCount (ex_env 39 false 10) ex_params 40 ∅ = 0%nat.
Proof. repeat split; reflexivity. Qed.

(** C3.  For a height [h] that may be asked ([0 <= h <= tip height + 1]) and a
    cache that agrees with the database, [GetNumCommitmentsRequired] returns,
    without touching the database: [0] when [h] is outside the mining phase;
    otherwise the number of sub-indexes whose committee block hash is
    non-null and whose slot has no confirmed commitment in the store, over
    [0 .. signingActiveQuorumCount - 1] with rotation and over index [0]
    alone without. *)
Theorem GetNumCommitmentsRequired_counts_open_slots
    (E : Env) (p : LLMQParams) (h : Z) (s : State) :
  cache_coherent s ->
  0 <= h ->
  h <= ChainActive_Height E + 1 ->
  exists mining n s',
    IsMiningPhase E p h s = Done mining s
    /\ mining = in_mining_window p h
    /\ GetNumCommitmentsRequired E p h s = Done n s'
    /\ evoDb s' = evoDb s
    /\ (mining = false -> n = 0%nat)
    /\ (mining = true ->
        IsQuorumRotationEnabled E p (rotation_block E h) = true ->
        n = length (List.filter
                      (fun qi =>
                         negb (GetQuorumBlockHash E p h qi =? 0)
                         && negb (is_confirmed (evoDb s) (type p)
                                    (GetQuorumBlockHash E p h qi)))
                      (irange (Z.to_nat (signingActiveQuorumCount p)))))
    /\ (mining = true ->
        IsQuorumRotationEnabled E p (rotation_block E h) = false ->
        n = if negb (GetQuorumBlockHash E p h 0 =? 0)
               && negb (is_confirmed (evoDb s) (type p) (GetQuorumBlockHash E p h 0))
            then 1%nat else 0%nat).
Proof.
  intros Hs Hh0 Hh.
  destruct (GetNumCommitmentsRequired_coherent E p h s Hs Hh0 Hh)
    as (n & s' & Hrun & -> & Hg & _).
  exists (in_mining_window p h), (RequiredCommitmentCount E p h (evoDb s)), s'.
  split; [|split; [done|split; [exact Hrun|split; [apply Hg|]]]].
  { rewrite IsMiningPhase_eq.
    by replace (h <=? ChainActive_Height E + 1) with true by (symmetry; apply Z.leb_le; lia). }
  unfold RequiredCommitmentCount.
  split; [|split].
  - by intros ->.
  - intros -> ->. reflexivity.
  - intros -> ->. cbn. unfold slot_open. by destruct (_ && _).
Qed.

Lemma GetNumCommitmentsRequired_counts_open_slots_witness :
  exists mining n s',
    IsMiningPhase (ex_env 28 true 10) ex_params 29 ex_state = Done mining ex_state
    /\ mining = true
    /\ GetNumCommitmentsRequired (ex_env 28 true 10) ex_params 29 ex_state = Done n s'
    /\ n = 2%nat.
Proof.
  destruct (GetNumCommitmentsRequired_counts_open_slots
              (ex_env 28 true 10) ex_params 29 ex_state)
    as (mining & n & s' & Hm & Hw & Hrun & _ & _ & Hrot & _).
  - by apply cache_coherent_empty_cache.
  - lia.
  - vm_compute. discriminate.
  - exists mining, n, s'. repeat split; try done.
    rewrite Hw in Hrot. exact (Hrot eq_refl eq_refl).
Defined.

(** ** The pool of mineable commitments *)

Section Pool.
Context (E : Env).

(** A first-seen commitment is installed and relayed. *)
Lemma AddMineableCommitment_first_seen fqc s :
  minableCommitmentsByQuorum s !! (llmqType fqc, quorumHash fqc) = None ->
  minableCommitments s !! SerializeHash E fqc = None ->
  exists s',
    AddMineableCommitment E fqc s = Done tt s'
    /\ best_candidate s' (llmqType fqc) (quorumHash fqc) = Some fqc
    /\ relayed s' = relayed s ++ [SerializeHash E fqc].
Proof.
  intros Hslot Hhash. unfold AddMineableCommitment. rewrite Hslot.
  eexists. split; [reflexivity|]. unfold best_candidate. cbn.
  rewrite lookup_insert_eq. cbn. unfold map_emplace. rewrite Hhash.
  by rewrite lookup_insert_eq.
Qed.

(** A commitment that does not beat the incumbent is dropped. *)
Lemma AddMineableCommitment_not_better fqc old s :
  best_candidate s (llmqType fqc) (quorumHash fqc) = Some old ->
  CountSigners fqc <= CountSigners old ->
  AddMineableCommitment E fqc s = Done tt s.
Proof.
  unfold best_candidate, AddMineableCommitment. intros Hbest Hle.
  destruct (minableCommitmentsByQuorum s !! _) as [oldHash|]; [|done].
  cbn in Hbest. rewrite Hbest.
  destruct (Z.gtb_spec (CountSigners fqc) (CountSigners old)); [lia | done].
Qed.

(** A commitment with strictly more signers replaces the incumbent and is
    relayed. *)
Lemma AddMineableCommitment_better fqc old s :
  best_candidate s (llmqType fqc) (quorumHash fqc) = Some old ->
  CountSigners old < CountSigners fqc ->
  exists s',
    AddMineableCommitment E fqc s = Done tt s'
    /\ best_candidate s' (llmqType fqc) (quorumHash fqc) = Some fqc
    /\ relayed s' = relayed s ++ [SerializeHash E fqc].
Proof.
  unfold best_candidate at 1, AddMineableCommitment. intros Hbest Hlt.
  destruct (minableCommitmentsByQuorum s !! _) as [oldHash|]; [|done].
  cbn in Hbest. rewrite Hbest.
  destruct (Z.gtb_spec (CountSigners fqc) (CountSigners old)); [|lia].
  eexists. split; [reflexivity|]. unfold best_candidate. cbn.
  rewrite lookup_insert_eq. cbn. unfold map_emplace.
  by rewrite lookup_delete_eq, lookup_insert_eq.
Qed.

End Pool.

(** C7.  [A] and [B] are commitments of one slot; [A] is admitted and is the
    best candidate of the slot afterwards.  Admitting [B] then returns, and:
    with strictly more signers than [A], [B] becomes the best candidate and
    is relayed; otherwise the best candidate remains [A], every part of the
    state is as before ([B] is dropped, nothing is relayed).  For distinct
    commitments the best candidate is [B] if and only if [B] has strictly
    more signers.  A first-seen [A] is relayed. *)
Theorem AddMineableCommitment_best_by_signers
    (E : Env) (A B : CFinalCommitment) (s0 s1 : State) :
  llmqType B = llmqType A ->
  quorumHash B = quorumHash A ->
  AddMineableCommitment E A s0 = Done tt s1 ->
  best_candidate s1 (llmqType A) (quorumHash A) = Some A ->
  exists s2,
    AddMineableCommitment E B s1 = Done tt s2
    /\ (CountSigners A < CountSigners B ->
        best_candidate s2 (llmqType A) (quorumHash A) = Some B
        /\ relayed s2 = relayed s1 ++ [SerializeHash E B])
    /\ (CountSigners B <= CountSigners A ->
        best_candidate s2 (llmqType A) (quorumHash A) = Some A /\ s2 = s1)
    /\ (A <> B ->
        (best_candidate s2 (llmqType A) (quorumHash A) = Some B
         <-> CountSigners A < CountSigners B))
    /\ (minableCommitmentsByQuorum s0 !! (llmqType A, quorumHash A) = None ->
        relayed s1 = relayed s0 ++ [SerializeHash E A]).
Proof.
  intros Ht Hh HA Hbest. rewrite <- Ht, <- Hh in Hbest.
  assert (Hfirst : minableCommitmentsByQuorum s0 !! (llmqType A, quorumHash A) = None ->
                   relayed s1 = relayed s0 ++ [SerializeHash E A]).
  { intros Hfree. unfold AddMineableCommitment in HA. rewrite Hfree in HA.
    by injection HA as <-. }
  destruct (Z.lt_ge_cases (CountSigners A) (CountSigners B)) as [Hlt|Hge].
  - destruct (AddMineableCommitment_better E B A s1 Hbest Hlt) as (s2 & Hrun & Hb & Hr).
    rewrite Ht, Hh in Hb.
    exists s2. split; [done|]. split; [done|]. split; [lia|]. split; [|done].
    intros _. by split.
  - pose proof (AddMineableCommitment_not_better E B A s1 Hbest Hge) as Hrun.
    rewrite Ht, Hh in Hbest.
    exists s1. split; [done|]. split; [lia|]. split; [done|]. split; [|done].
    intros Hne. rewrite Hbest. split; [|lia]. intros [= ->]. done.
Qed.

Lemma AddMineableCommitment_best_by_signers_witness :
  let E := ex_env 28 false 10 in
  let A := ex_commitment 1024 0 [true; true; false] in
  let B := ex_commitment 1024 0 [true; true; true] in
  exists s1 s2,
    AddMineableCommitment E A ex_state = Done tt s1
    /\ AddMineableCommitment E B s1 = Done tt s2
    /\ best_candidate s2 1 1024 = Some B
    /\ relayed s2 = [SerializeHash E A; SerializeHash E B].
Proof.
  intros E A B.
  destruct (AddMineableCommitment_first_seen E A ex_state eq_refl eq_refl)
    as (s1 & HA & Hbest & Hrel).
  destruct (AddMineableCommitment_best_by_signers E A B ex_state s1
              eq_refl eq_refl HA Hbest)
    as (s2 & HB & Hbetter & _ & _ & _).
  destruct Hbetter as [Hb Hr]; [vm_compute; reflexivity|].
  exists s1, s2. repeat split; try done.
  rewrite Hr, Hrel. reflexivity.
Defined.

(** ** Extraction *)

Section Extraction.
Context (E : Env) (pindex : CBlockIndex).

Lemma multimap_emplace_perm k v m : multimap_emplace k v m ≡ₚ (k, v) :: m.
Proof.
  induction m as [|[k' v'] m IH]; cbn [multimap_emplace]; [done|].
  destruct (k <? k'); [done|]. rewrite IH. apply Permutation_swap.
Qed.

Lemma multimap_count_zero t (m : list (LLMQType * CFinalCommitment)) :
  (multimap_count t m =? 0)%nat = true <-> t ∉ m.*1.
Proof.
  unfold multimap_count. induction m as [|[k v] m IH]; cbn.
  - split; [intros _; apply not_elem_of_nil | done].
  - rewrite not_elem_of_cons. destruct (Z.eqb_spec k t) as [->|Hne]; cbn.
    + split; [done | intros [? _]; done].
    + rewrite IH. split; [intros ?; split; congruence | intros [_ ?]; done].
Qed.

Lemma one_per_type_cons t types :
  one_per_type E pindex (t :: types)
  <-> one_per_type E pindex types
      /\ (rotation_active E pindex t = false -> t ∉ types).
Proof.
  unfold one_per_type. rewrite filter_cons.
  destruct (decide (rotation_active E pindex t = false)) as [Hr|Hr].
  - rewrite NoDup_cons, list_elem_of_filter. split.
    + intros [Hn Hd]. split; [done|]. intros _ Hin. apply Hn. done.
    + intros [Hd Hn]. split; [|done]. intros [_ Hin]. by apply Hn.
  - split; [intros ?; split; [done|intros ?; done] | by intros [? _]].
Qed.

#[local] Instance one_per_type_perm :
  Proper ((≡ₚ) ==> iff) (one_per_type E pindex).
Proof. intros l1 l2 Hl. unfold one_per_type. by rewrite Hl. Qed.

(** The loop either extracts every commitment, or stops at the second
    commitment of a type without rotation. *)
Lemma extract_commitments_spec txs ret :
  payloads_checked E txs ->
  one_per_type E pindex ret.*1 ->
  (one_per_type E pindex (ret.*1 ++ map llmqType (block_commitments txs)) ->
   exists qcs,
     extract_commitments E pindex txs ret = (ResOk, qcs)
     /\ qcs ≡ₚ ret ++ multimap_of (block_commitments txs))
  /\ (~ one_per_type E pindex (ret.*1 ++ map llmqType (block_commitments txs)) ->
      fst (extract_commitments E pindex txs ret) = ResInvalid "bad-qc-dup").
Proof.
  intros Hchk. revert ret.
  induction Hchk as [|tx txs Htx Hchk IH]; intros ret Hret;
    cbn [extract_commitments block_commitments].
  - cbn [map multimap_of]. rewrite !app_nil_r. split; [eauto | done].
  - destruct (Z.eqb_spec (nType tx) TRANSACTION_QUORUM_COMMITMENT) as [Hty|Hty];
      [|by apply IH].
    destruct (Htx Hty) as (payload & -> & [p Hp]). rewrite Hp.
    set (qc := commitment payload) in *. set (t := llmqType qc) in *.
    assert (Hrot : rotation_active E pindex t
                   = IsQuorumRotationEnabled E p (Some pindex))
      by (unfold rotation_active; by rewrite Hp).
    rewrite <- Hrot. unfold multimap_of. cbn [map].
    fold (multimap_of (block_commitments txs)). change (llmqType qc) with t.
    assert (Hperm : ret.*1 ++ t :: map llmqType (block_commitments txs)
                    ≡ₚ t :: ret.*1 ++ map llmqType (block_commitments txs))
      by (by rewrite Permutation_middle).
    rewrite Hperm, one_per_type_cons, elem_of_app.
    destruct (rotation_active E pindex t) eqn:Hr; cbn [negb andb].
    + (* rotation: the commitment is always taken *)
      destruct (IH (multimap_emplace t qc ret)) as [IH1 IH2].
      { rewrite multimap_emplace_perm. cbn. apply one_per_type_cons.
        split; [done | congruence]. }
      assert (Hp' : (multimap_emplace t qc ret).*1
                      ++ map llmqType (block_commitments txs)
                    ≡ₚ t :: ret.*1 ++ map llmqType (block_commitments txs))
        by (by rewrite multimap_emplace_perm).
      rewrite Hp', one_per_type_cons, Hr in IH1, IH2. split.
      * intros [Hone _]. destruct IH1 as (qcs & Hrun & Hq); [split; [done|congruence]|].
        exists qcs. split; [done|]. rewrite Hq, multimap_emplace_perm.
        by rewrite <- Permutation_middle.
      * intros Hno. apply IH2. intros [Hone _]. apply Hno. split; [done|congruence].
    + destruct (multimap_count t ret =? 0)%nat eqn:Hcount; cbn [negb].
      * (* first commitment of a type without rotation *)
        apply multimap_count_zero in Hcount.
        destruct (IH (multimap_emplace t qc ret)) as [IH1 IH2].
        { rewrite multimap_emplace_perm. cbn. apply one_per_type_cons.
          split; [done | intros _; done]. }
        assert (Hp' : (multimap_emplace t qc ret).*1
                        ++ map llmqType (block_commitments txs)
                      ≡ₚ t :: ret.*1 ++ map llmqType (block_commitments txs))
          by (by rewrite multimap_emplace_perm).
        rewrite Hp', one_per_type_cons, Hr, elem_of_app in IH1, IH2. split.
        -- intros Hone. destruct (IH1 Hone) as (qcs & Hrun & Hq).
           exists qcs. split; [done|]. rewrite Hq, multimap_emplace_perm.
           by rewrite <- Permutation_middle.
        -- intros Hno. by apply IH2.
      * (* second commitment of a type without rotation *)
        assert (Hin : t ∈ ret.*1).
        { destruct (decide (t ∈ ret.*1)) as [|Hn]; [done|].
          apply multimap_count_zero in Hn. congruence. }
        split; [|done]. intros [_ Hn]. exfalso. apply Hn; [done | by left].
Qed.

End Extraction.

(** C8.  The commitment transactions of the block decode and name known
    types (checked before the block is processed).  If two of its
    commitments have the same type and rotation is not active for that type,
    extraction rejects the block with ["bad-qc-dup"].  If no type without
    rotation occurs twice, in particular if rotation is active for every
    type that occurs, all commitments of the block are extracted (the
    multimap is a permutation of them) and the verdict is not
    ["bad-qc-dup"]; it is success at or above the activation height. *)
Theorem GetCommitmentsFromBlock_one_per_type_unless_rotation
    (E : Env) (block : CBlock) (pindex : CBlockIndex) :
  payloads_checked E (vtx block) ->
  (forall l1 qc1 l2 qc2 l3,
      block_commitments (vtx block) = l1 ++ qc1 :: l2 ++ qc2 :: l3 ->
      llmqType qc1 = llmqType qc2 ->
      rotation_active E pindex (llmqType qc1) = false ->
      fst (GetCommitmentsFromBlock E block pindex) = ResInvalid "bad-qc-dup")
  /\ (one_per_type E pindex (map llmqType (block_commitments (vtx block))) ->
      exists r qcs,
        GetCommitmentsFromBlock E block pindex = (r, qcs)
        /\ qcs ≡ₚ multimap_of (block_commitments (vtx block))
        /\ r <> ResInvalid "bad-qc-dup"
        /\ (DIP0003Height E <= nHeight pindex -> r = ResOk))
  /\ (Forall (fun qc => rotation_active E pindex (llmqType qc) = true)
        (block_commitments (vtx block)) ->
      one_per_type E pindex (map llmqType (block_commitments (vtx block)))).
Proof.
  intros Hchk.
  destruct (extract_commitments_spec E pindex (vtx block) [] Hchk) as [Hall Hdup].
  { apply NoDup_nil_2. }
  cbn [fmap list_fmap app] in Hall, Hdup.
  split; [|split].
  - intros l1 qc1 l2 qc2 l3 Hcs Hty Hrot.
    unfold GetCommitmentsFromBlock.
    destruct (extract_commitments E pindex (vtx block) []) as [r qcs] eqn:Hex.
    cbn [fst] in Hdup. rewrite Hdup; [done|].
    rewrite Hcs. unfold one_per_type.
    rewrite !map_app, !filter_app. cbn [map]. rewrite filter_cons.
    destruct (decide (rotation_active E pindex (llmqType qc1) = false)); [|done].
    rewrite map_app. cbn [map]. rewrite filter_app, filter_cons. rewrite <- Hty.
    destruct (decide (rotation_active E pindex (llmqType qc1) = false)); [|done].
    rewrite NoDup_app. intros (_ & _ & Hnd).
    apply NoDup_cons in Hnd as [Hnot _]. apply Hnot.
    apply elem_of_app. right. by left.
  - intros Hone. destruct (Hall Hone) as (qcs & Hex & Hperm).
    unfold GetCommitmentsFromBlock. rewrite Hex.
    destruct (Z.ltb_spec (nHeight pindex) (DIP0003Height E)); cbn [andb].
    + destruct (negb (bool_decide (qcs = []))).
      * eexists _, qcs. repeat split; [done | done | lia].
      * eexists _, qcs. repeat split; [done | done].
    + eexists _, qcs. repeat split; [done | done].
  - intros Hrot. clear Hall Hdup. unfold one_per_type.
    induction Hrot as [|qc qcs Hqc Hrot IH]; cbn [map]; [apply NoDup_nil_2|].
    rewrite filter_cons. destruct (decide _); [congruence | exact IH].
Qed.

Lemma GetCommitmentsFromBlock_one_per_type_unless_rotation_witness :
  fst (GetCommitmentsFromBlock (ex_env 28 false 10) ex_block_two (ex_chain 29))
  = ResInvalid "bad-qc-dup"
  /\ exists r qcs,
       GetCommitmentsFromBlock (ex_env 28 true 10) ex_block_two (ex_chain 29) = (r, qcs)
       /\ qcs ≡ₚ [(1, ex_qc0); (1, ex_qc1)]
       /\ r = ResOk.
Proof.
  assert (Hchk : forall rot, payloads_checked (ex_env 28 rot 10) (vtx ex_block_two)).
  { intros rot. repeat constructor; intros _; eexists; (split; [reflexivity|]);
      vm_compute; eauto. }
  split.
  - destruct (GetCommitmentsFromBlock_one_per_type_unless_rotation
                (ex_env 28 false 10) ex_block_two (ex_chain 29) (Hchk false))
      as (Hdup & _).
    apply (Hdup [] ex_qc0 [] ex_qc1 []); reflexivity.
  - destruct (GetCommitmentsFromBlock_one_per_type_unless_rotation
                (ex_env 28 true 10) ex_block_two (ex_chain 29) (Hchk true))
      as (_ & Hall & Hrot).
    destruct Hall as (r & qcs & Hrun & Hperm & _ & Hok).
    { apply Hrot. repeat constructor. }
    exists r, qcs. repeat split; [done | done |]. apply Hok. vm_compute. discriminate.
Defined.

(** ** Processing one commitment *)

Section Commitment.
Context (E : Env).


(** What a call of [ProcessCommitment] can do: either it writes nothing (the
    cache at most learns an entry), or it accepts a non-null commitment of a
    known type whose slot the existence check found free, and commits it. *)
Lemma ProcessCommitment_cases h bh qc fJustCheck fBLSChecks s :
  ensures (ProcessCommitment E h bh qc fJustCheck fBLSChecks) s
    (fun r s' =>
       (cache_grows s s' /\ (r = ResOk -> fJustCheck = true \/ IsNull qc = true))
       \/ (r = ResOk /\ fJustCheck = false /\ IsNull qc = false
           /\ exists p base s1,
               GetLLMQParams E (llmqType qc) = Some p
               /\ expected_quorum_hash E p h qc = quorumHash qc
               /\ quorumHash qc <> 0
               /\ HasMinedCommitment (type p) (quorumHash qc) s = Done false s1
               /\ in_mining_window p h = true
               /\ LookupBlockIndex E (quorumHash qc) = Some base
               /\ s' = committed E p h bh qc base s1)).
Proof.
  intros r s' Hrun. unfold ProcessCommitment in Hrun.
  assert (Hstop : forall reason s0,
             cache_grows s s0 ->
             cache_grows s s0
             /\ (ResInvalid reason = ResOk -> fJustCheck = true \/ IsNull qc = true))
    by (intros; by split).
  destruct (GetLLMQParams E (llmqType qc)) as [p|] eqn:Hp;
    [|injection Hrun as <- <-; left; by split].
  fold (expected_quorum_hash E p h qc) in Hrun.
  destruct (Z.eqb_spec (expected_quorum_hash E p h qc) 0) as [|Hnz];
    [injection Hrun as <- <-; left; by apply Hstop|].
  destruct (Z.eqb_spec (expected_quorum_hash E p h qc) (quorumHash qc)) as [Heq|];
    cbn [negb] in Hrun; [|injection Hrun as <- <-; left; by apply Hstop].
  rewrite Heq in Hrun, Hnz.
  destruct (IsNull qc) eqn:Hnull.
  { destruct (VerifyNull E qc); injection Hrun as <- <-; left; split; auto. }
  apply bind_Done in Hrun as (mined & s1 & Hm & Hrun).
  destruct (HasMinedCommitment_returns (type p) (quorumHash qc) s)
    as (mined' & s1' & Hm' & Hg).
  rewrite Hm in Hm'. injection Hm' as <- <-.
  destruct mined; [injection Hrun as <- <-; left; by apply Hstop|].
  apply bind_Done in Hrun as (mining & s2 & Hmin & Hrun).
  rewrite IsMiningPhase_eq in Hmin. destruct (h <=? _); [|done].
  injection Hmin as <- <-.
  destruct (in_mining_window p h) eqn:Hwin; cbn [negb] in Hrun;
    [|injection Hrun as <- <-; left; by apply Hstop].
  destruct (Verify E qc _ fBLSChecks); cbn [negb] in Hrun;
    [|injection Hrun as <- <-; left; by apply Hstop].
  destruct fJustCheck; [injection Hrun as <- <-; left; split; auto|].
  destruct (LookupBlockIndex E (quorumHash qc)) as [base|] eqn:Hbase; [|done].
  right. split; [|split; [done|split; [done|]]].
  - destruct (IsQuorumRotationEnabled E p (Some base)); by injection Hrun as <- _.
  - exists p, base, s1. repeat split; try done.
    unfold committed, reverse_key.
    destruct (IsQuorumRotationEnabled E p (Some base)); by injection Hrun as _ <-.
Qed.

(** A null commitment never changes the state, and the call always returns:
    with success exactly when the type is known, the expected committee hash
    is the commitment's and the null proof verifies. *)
Lemma ProcessCommitment_null h bh qc fJustCheck fBLSChecks s :
  IsNull qc = true ->
  exists r,
    ProcessCommitment E h bh qc fJustCheck fBLSChecks s = Done r s
    /\ (r = ResOk <->
        exists p, GetLLMQParams E (llmqType qc) = Some p
                  /\ expected_quorum_hash E p h qc = quorumHash qc
                  /\ quorumHash qc <> 0
                  /\ VerifyNull E qc = true).
Proof.
  intros Hnull. unfold ProcessCommitment.
  destruct (GetLLMQParams E (llmqType qc)) as [p|] eqn:Hp.
  2:{ eexists. split; [done|]. split; [done | intros (? & ? & _); done]. }
  fold (expected_quorum_hash E p h qc).
  destruct (Z.eqb_spec (expected_quorum_hash E p h qc) 0) as [Hz|Hnz].
  { eexists. split; [done|]. split; [done|].
    intros (p' & [= <-] & Heq & Hne & _). congruence. }
  destruct (Z.eqb_spec (expected_quorum_hash E p h qc) (quorumHash qc)) as [Heq|Hne];
    cbn [negb].
  2:{ eexists. split; [done|]. split; [done|].
      intros (p' & [= <-] & Heq & _). congruence. }
  rewrite Hnull. destruct (VerifyNull E qc) eqn:Hv; cbn [negb].
  - eexists. split; [done|]. split; [|done]. intros _. exists p.
    repeat split; congruence.
  - eexists. split; [done|]. split; [done|]. intros (? & _ & _ & _ & ?). done.
Qed.

End Commitment.

(** ** Processing a block *)

Section Block.
Context (E : Env).


Lemma check_commitment_counts_ensures pindex qcs enabled s :
  ensures (check_commitment_counts E pindex qcs enabled) s
    (fun _ s' => cache_grows s s').
Proof.
  revert s. induction enabled as [|p enabled IH]; intros s;
    cbn [check_commitment_counts].
  - by apply ensures_ret.
  - destruct (ChainActive_Tip E); [|by apply ensures_ret].
    apply ensures_bind.
    eapply ensures_weaken; [apply GetNumCommitmentsRequired_ensures|].
    intros n s1 Hg. cbn beta.
    destruct (_ <? _)%nat; [by apply ensures_ret|].
    destruct (_ <? _)%nat; [by apply ensures_ret|].
    eapply ensures_weaken; [apply IH|].
    intros r' s2 Hg'. exact (cache_grows_trans _ _ _ Hg Hg').
Qed.

Lemma counts_verdict_agree h qcs db db' enabled :
  (forall p, RequiredCommitmentCount E p h db = RequiredCommitmentCount E p h db') ->
  counts_verdict E h qcs db enabled = counts_verdict E h qcs db' enabled.
Proof.
  intros Hreq. induction enabled as [|p enabled IH]; cbn [counts_verdict]; [done|].
  by rewrite Hreq, IH.
Qed.

(** With a coherent cache, a non-empty active chain and a height that may be
    asked, the count check returns the verdict computed from the database. *)
Lemma check_commitment_counts_coherent pindex qcs enabled s :
  cache_coherent s ->
  is_Some (ChainActive_Tip E) ->
  0 <= nHeight pindex ->
  nHeight pindex <= ChainActive_Height E + 1 ->
  returns (check_commitment_counts E pindex qcs enabled) s
    (fun r s' =>
       r = counts_verdict E (nHeight pindex) qcs (evoDb s) enabled
       /\ cache_grows s s' /\ cache_coherent s').
Proof.
  intros Hs [tip Htip] Hh0 Hh. revert s Hs.
  induction enabled as [|p enabled IH]; intros s Hs;
    cbn [check_commitment_counts counts_verdict].
  - apply returns_ret. auto.
  - rewrite Htip. apply returns_bind.
    eapply returns_weaken; [by apply GetNumCommitmentsRequired_coherent|].
    intros n s1 (-> & Hg & Hs1). cbn beta.
    destruct (_ <? _)%nat; [apply returns_ret; auto|].
    destruct (_ <? _)%nat; [apply returns_ret; auto|].
    eapply returns_weaken; [by apply IH|].
    intros r s2 (-> & Hg' & Hs2). cbn beta.
    split; [|split; [exact (cache_grows_trans _ _ _ Hg Hg') | done]].
    destruct Hg as (-> & _). done.
Qed.

Lemma counts_verdict_ok h qcs db enabled :
  counts_verdict E h qcs db enabled = ResOk
  <-> Forall (count_matches E h qcs db) enabled.
Proof.
  unfold count_matches.
  induction enabled as [|p enabled IH]; cbn [counts_verdict].
  - split; [constructor | done].
  - rewrite Forall_cons.
    destruct (Nat.ltb_spec (RequiredCommitmentCount E p h db) (multimap_count (type p) qcs)).
    { split; [done | intros [? _]; lia]. }
    destruct (Nat.ltb_spec (multimap_count (type p) qcs) (RequiredCommitmentCount E p h db)).
    { split; [done | intros [? _]; lia]. }
    rewrite IH. split; [intros ?; split; [lia | done] | by intros [_ ?]].
Qed.

Lemma counts_verdict_first_mismatch h qcs db pre p post :
  Forall (count_matches E h qcs db) pre ->
  (RequiredCommitmentCount E p h db < multimap_count (type p) qcs)%nat
  \/ (multimap_count (type p) qcs < RequiredCommitmentCount E p h db)%nat ->
  counts_verdict E h qcs db (pre ++ p :: post)
  = if (RequiredCommitmentCount E p h db <? multimap_count (type p) qcs)%nat
    then ResInvalid "bad-qc-not-allowed" else ResInvalid "bad-qc-missing".
Proof.
  unfold count_matches. intros Hpre Hmis.
  induction Hpre as [|q pre Hq Hpre IH]; cbn [app counts_verdict].
  - destruct (Nat.ltb_spec (RequiredCommitmentCount E p h db)
                (multimap_count (type p) qcs)); [done|].
    destruct (Nat.ltb_spec (multimap_count (type p) qcs)
                (RequiredCommitmentCount E p h db)); [done | lia].
  - rewrite Hq, Nat.ltb_irrefl. exact IH.
Qed.

(** Below the activation height [ProcessBlock] only writes the marker. *)
Lemma ProcessBlock_before_activation block pindex fJustCheck fBLSChecks s :
  nHeight pindex < DIP0003Height E ->
  ProcessBlock E block pindex fJustCheck fBLSChecks s
  = Done ResOk (set_evoDb (insert best_block_key (ValHash (GetHash block))) s).
Proof.
  intros Hlt. unfold ProcessBlock.
  destruct (Z.geb_spec (nHeight pindex) (DIP0003Height E)); [lia|]. reflexivity.
Qed.

(** At or above it, it switches the scheme flag, extracts, checks the counts
    and processes the commitments in turn. *)
Lemma ProcessBlock_active block pindex fJustCheck fBLSChecks s :
  DIP0003Height E <= nHeight pindex ->
  ProcessBlock E block pindex fJustCheck fBLSChecks s
  = match GetCommitmentsFromBlock E block pindex with
    | (ResOk, qcs) =>
        (do counts <- check_commitment_counts E pindex qcs
                        (GetEnabledQuorumParams E (pprev pindex));
         match counts with
         | ResOk =>
             do r <- process_commitments E (nHeight pindex) (GetHash block)
                       fJustCheck fBLSChecks qcs;
             match r with
             | ResOk =>
                 run db_write best_block_key (ValHash (GetHash block));
                 retM ResOk
             | _ => retM r
             end
         | _ => retM counts
         end) (after_bls_switch E pindex s)
    | (r, _) => Done r (after_bls_switch E pindex s)
    end.
Proof.
  intros Hge. unfold ProcessBlock, after_bls_switch.
  destruct (Z.geb_spec (nHeight pindex) (DIP0003Height E)); [|lia]. cbn [negb].
  unfold bind at 1.
  destruct (IsV19Active E (pprev pindex)); cbn;
    destruct (GetCommitmentsFromBlock E block pindex) as [[] qcs]; reflexivity.
Qed.

Lemma after_bls_switch_grows pindex s :
  evoDb (after_bls_switch E pindex s) = evoDb s
  /\ mapHasMinedCommitmentCache (after_bls_switch E pindex s) = mapHasMinedCommitmentCache s
  /\ minableCommitmentsByQuorum (after_bls_switch E pindex s) = minableCommitmentsByQuorum s
  /\ minableCommitments (after_bls_switch E pindex s) = minableCommitments s
  /\ relayed (after_bls_switch E pindex s) = relayed s.
Proof. unfold after_bls_switch. by destruct (IsV19Active E _). Qed.

Lemma after_bls_switch_coherent pindex s :
  cache_coherent s -> cache_coherent (after_bls_switch E pindex s).
Proof. unfold after_bls_switch. by destruct (IsV19Active E _). Qed.

(** The runs of [ProcessBlock] at or above the activation height. *)
Lemma ProcessBlock_active_inv block pindex fJustCheck fBLSChecks s r s' :
  DIP0003Height E <= nHeight pindex ->
  ProcessBlock E block pindex fJustCheck fBLSChecks s = Done r s' ->
  (exists qcs, GetCommitmentsFromBlock E block pindex = (r, qcs)
               /\ r <> ResOk /\ s' = after_bls_switch E pindex s)
  \/ (exists qcs counts s1,
        GetCommitmentsFromBlock E block pindex = (ResOk, qcs)
        /\ check_commitment_counts E pindex qcs (GetEnabledQuorumParams E (pprev pindex))
             (after_bls_switch E pindex s) = Done counts s1
        /\ ((counts <> ResOk /\ r = counts /\ s' = s1)
            \/ (counts = ResOk
                /\ exists r2 s2,
                    process_commitments E (nHeight pindex) (GetHash block)
                      fJustCheck fBLSChecks qcs s1 = Done r2 s2
                    /\ ((r2 <> ResOk /\ r = r2 /\ s' = s2)
                        \/ (r2 = ResOk /\ r = ResOk
                            /\ s' = set_evoDb
                                      (insert best_block_key (ValHash (GetHash block)))
                                      s2))))).
Proof.
  intros Hge Hrun. rewrite ProcessBlock_active in Hrun by done.
  destruct (GetCommitmentsFromBlock E block pindex) as [r0 qcs] eqn:Hex.
  assert (Hfail : r0 <> ResOk -> Done r0 (after_bls_switch E pindex s) = Done r s' ->
                  exists qcs0, (r0, qcs) = (r, qcs0) /\ r <> ResOk
                               /\ s' = after_bls_switch E pindex s).
  { intros Hne [= <- <-]. by exists qcs. }
  destruct r0; [|left; by apply Hfail..].
  right. apply bind_Done in Hrun as (counts & s1 & Hc & Hrun).
  exists qcs, counts, s1. split; [done|]. split; [done|].
  destruct counts; [|left; by injection Hrun as <- <-..].
  right. split; [done|].
  apply bind_Done in Hrun as (r2 & s2 & Hp & Hrun).
  exists r2, s2. split; [done|].
  destruct r2; [|left; by injection Hrun as <- <-..].
  right. by injection Hrun as <- <-.
Qed.


End Block.

(** ** Checking without applying *)

Section CheckOnly.
Context (E : Env).

Lemma ProcessCommitment_valid h bh qc fJustCheck fBLSChecks s s' :
  ProcessCommitment E h bh qc fJustCheck fBLSChecks s = Done ResOk s' ->
  commitment_valid E h fBLSChecks qc.
Proof.
  intros Hrun. unfold ProcessCommitment in Hrun. unfold commitment_valid.
  destruct (GetLLMQParams E (llmqType qc)) as [p|] eqn:Hp; [|done].
  fold (expected_quorum_hash E p h qc) in Hrun.
  destruct (Z.eqb_spec (expected_quorum_hash E p h qc) 0) as [|Hnz]; [done|].
  destruct (Z.eqb_spec (expected_quorum_hash E p h qc) (quorumHash qc)) as [Heq|];
    cbn [negb] in Hrun; [|done].
  exists p. rewrite Heq in Hnz. split; [done|]. split; [done|]. split; [done|].
  destruct (IsNull qc) eqn:Hnull.
  { destruct (VerifyNull E qc); [|done]. split; [done|]. intros [=]. }
  split; [done|]. intros _.
  apply bind_Done in Hrun as (mined & s1 & Hm & Hrun).
  destruct mined; [done|].
  apply bind_Done in Hrun as (mining & s2 & Hmin & Hrun).
  rewrite IsMiningPhase_eq in Hmin. destruct (h <=? _); [|done].
  injection Hmin as <- <-.
  destruct (in_mining_window p h); cbn [negb] in Hrun; [|done].
  split; [done|].
  by destruct (Verify E qc _ fBLSChecks).
Qed.



End CheckOnly.




(** Below the activation height [ProcessBlock] returns before the
    commitments of the block are extracted: whatever the block carries, it
    writes the best-block marker and accepts.  The check for premature
    commitments is in [GetCommitmentsFromBlock]: for a block below the
    activation height whose commitment payloads are well formed and that
    carries at least one, it fails (with ["bad-qc-premature"], unless a type
    without rotation occurs twice), and [UndoBlock], which calls it at any
    height, returns [false]; without commitments extraction succeeds with an
    empty result. *)
Lemma before_activation_extraction_is_skipped
    (E : Env) (block : CBlock) (pindex : CBlockIndex) (fJustCheck fBLSChecks : bool)
    (s : State) :
  nHeight pindex < DIP0003Height E ->
  ProcessBlock E block pindex fJustCheck fBLSChecks s
  = Done ResOk (set_evoDb (insert best_block_key (ValHash (GetHash block))) s)
  /\ (payloads_checked E (vtx block) ->
      block_commitments (vtx block) <> [] ->
      (exists reason, fst (GetCommitmentsFromBlock E block pindex) = ResInvalid reason)
      /\ (one_per_type E pindex (map llmqType (block_commitments (vtx block))) ->
          fst (GetCommitmentsFromBlock E block pindex) = ResInvalid "bad-qc-premature")
      /\ exists s', UndoBlock E block pindex s = Done false s')
  /\ (block_commitments (vtx block) = [] ->
      payloads_checked E (vtx block) ->
      GetCommitmentsFromBlock E block pindex = (ResOk, [])).
Proof.
  intros Hlt. split; [by apply ProcessBlock_before_activation|].
  assert (Hpre : forall qcs,
             extract_commitments E pindex (vtx block) [] = (ResOk, qcs) ->
             GetCommitmentsFromBlock E block pindex
             = if negb (bool_decide (qcs = []))
               then (ResInvalid "bad-qc-premature", qcs) else (ResOk, qcs)).
  { intros qcs Hex. unfold GetCommitmentsFromBlock. rewrite Hex.
    destruct (Z.ltb_spec (nHeight pindex) (DIP0003Height E)); [done | lia]. }
  split.
  - intros Hchk Hne.
    destruct (extract_commitments_spec E pindex (vtx block) [] Hchk) as [Hall Hdup];
      [apply NoDup_nil_2|].
    cbn [fmap list_fmap app] in Hall, Hdup.
    assert (Hone : one_per_type E pindex (map llmqType (block_commitments (vtx block))) ->
                   fst (GetCommitmentsFromBlock E block pindex)
                   = ResInvalid "bad-qc-premature").
    { intros Hone. destruct (Hall Hone) as (qcs & Hex & Hperm).
      rewrite (Hpre _ Hex). case_bool_decide as Hnil; [|done]. subst qcs.
      apply Permutation_nil_l in Hperm.
      destruct (block_commitments (vtx block)); [done | discriminate]. }
    assert (Hrej : exists reason,
               fst (GetCommitmentsFromBlock E block pindex) = ResInvalid reason).
    { destruct (decide (one_per_type E pindex
                          (map llmqType (block_commitments (vtx block))))) as [Hyes|Hno].
      - eauto.
      - exists "bad-qc-dup". unfold GetCommitmentsFromBlock.
        specialize (Hdup Hno).
        destruct (extract_commitments E pindex (vtx block) []) as [r0 qcs].
        cbn in Hdup. by subst r0. }
    split; [done|]. split; [done|].
    destruct Hrej as (reason & Hrej). unfold UndoBlock, bind.
    destruct (GetCommitmentsFromBlock E block pindex) as [r0 qcs].
    cbn in Hrej. subst r0.
    destruct (negb (IsV19Active E (pprev pindex))); cbn; eauto.
  - intros Hnil Hchk.
    destruct (extract_commitments_spec E pindex (vtx block) [] Hchk) as [Hall _];
      [apply NoDup_nil_2|].
    cbn [fmap list_fmap app] in Hall. rewrite Hnil in Hall.
    destruct Hall as (qcs & Hex & Hperm); [apply NoDup_nil_2|].
    apply Permutation_nil_r in Hperm. subst qcs. by rewrite (Hpre _ Hex).
Qed.

(** C4.  The run of a block below the activation height that carries a
    commitment: the activation height is 100, the block of height 29 carries
    one commitment of the enabled type.  [ProcessBlock] writes the
    best-block marker and accepts the block, where a rejection is asked
    for.  The rejection is in the code, out of reach of [ProcessBlock]:
    [GetCommitmentsFromBlock] fails on this block with
    ["bad-qc-premature"], and [UndoBlock] returns [false] for the block
    [ProcessBlock] has just accepted. *)
Theorem ProcessBlock_accepts_premature_commitment :
  let E := ex_env 28 false 100 in
  let accepted := set_evoDb (insert best_block_key (ValHash 1029)) ex_state in
  nHeight (ex_chain 29) < DIP0003Height E
  /\ block_commitments (vtx ex_block_one) = [ex_qc0]
  /\ ProcessBlock E ex_block_one (ex_chain 29) false true ex_state = Done ResOk accepted
  /\ fst (GetCommitmentsFromBlock E ex_block_one (ex_chain 29))
     = ResInvalid "bad-qc-premature"
  /\ UndoBlock E ex_block_one (ex_chain 29) accepted = Done false (set_bls true accepted).
Proof. cbn zeta. repeat split; reflexivity. Qed.

(** Two blocks that are accepted although the number of commitments differs
    from the required one.  Below the activation height: at height 29 one
    commitment of the enabled type is required and the block carries none.
    In a replay after a crash (no active chain tip): at height 0 none is
    required and the block carries one. *)
Lemma ProcessBlock_count_not_enforced :
  (let E := ex_env 28 false 100 in
   In ex_params (GetEnabledQuorumParams E (pprev (ex_chain 29)))
   /\ (exists s1, GetNumCommitmentsRequired E ex_params (nHeight (ex_chain 29)) ex_state
                  = Done 1%nat s1)
   /\ multimap_count (type ex_params)
        (snd (GetCommitmentsFromBlock E ex_block_empty (ex_chain 29))) = 0%nat
   /\ exists s', ProcessBlock E ex_block_empty (ex_chain 29) false true ex_state
                 = Done ResOk s')
  /\ (let E := ex_replay_env in
      In ex_replay_params (GetEnabledQuorumParams E (pprev (ex_chain 0)))
      /\ DIP0003Height E <= nHeight (ex_chain 0)
      /\ (exists s1, GetNumCommitmentsRequired E ex_replay_params (nHeight (ex_chain 0))
                       ex_state = Done 0%nat s1)
      /\ multimap_count (type ex_replay_params)
           (snd (GetCommitmentsFromBlock E ex_replay_block (ex_chain 0))) = 1%nat
      /\ exists s', ProcessBlock E ex_replay_block (ex_chain 0) false true ex_state
                    = Done ResOk s').
Proof.
  cbn zeta. split.
  - split; [by left|]. split; [eexists; vm_compute; reflexivity|].
    split; [reflexivity|]. eexists. reflexivity.
  - split; [by left|]. split; [vm_compute; discriminate|].
    split; [eexists; vm_compute; reflexivity|].
    split; [reflexivity|]. eexists. vm_compute. reflexivity.
Qed.

(** C1 (amended).  The block is at or above the activation height, the
    active chain has a tip (no replay after a crash), the height may be asked
    and the commitments of the block were extracted.  Then, with the numbers
    [GetNumCommitmentsRequired] returns for the enabled types of the previous
    block: [ProcessBlock] accepts only if every enabled type has exactly the
    required number of commitments in the block; the first enabled type, in
    list order, whose number differs makes it reject the block, with
    ["bad-qc-not-allowed"] when the block has more and with
    ["bad-qc-missing"] when it has fewer; and a difference for any enabled
    type makes it reject with one of these two reasons. *)
Theorem ProcessBlock_requires_exact_commitment_counts
    (E : Env) (block : CBlock) (pindex : CBlockIndex) (fJustCheck fBLSChecks : bool)
    (s : State) (qcs : list (LLMQType * CFinalCommitment)) :
  cache_coherent s ->
  DIP0003Height E <= nHeight pindex ->
  is_Some (ChainActive_Tip E) ->
  0 <= nHeight pindex ->
  nHeight pindex <= ChainActive_Height E + 1 ->
  GetCommitmentsFromBlock E block pindex = (ResOk, qcs) ->
  let enabled := GetEnabledQuorumParams E (pprev pindex) in
  let required p := RequiredCommitmentCount E p (nHeight pindex) (evoDb s) in
  let in_block p := multimap_count (type p) qcs in
  (forall p, exists s1, GetNumCommitmentsRequired E p (nHeight pindex) s = Done (required p) s1)
  /\ (forall pre p post,
         enabled = pre ++ p :: post ->
         Forall (fun q => in_block q = required q) pre ->
         ((required p < in_block p)%nat ->
          exists s', ProcessBlock E block pindex fJustCheck fBLSChecks s
                     = Done (ResInvalid "bad-qc-not-allowed") s')
         /\ ((in_block p < required p)%nat ->
             exists s', ProcessBlock E block pindex fJustCheck fBLSChecks s
                        = Done (ResInvalid "bad-qc-missing") s'))
  /\ (forall s', ProcessBlock E block pindex fJustCheck fBLSChecks s = Done ResOk s' ->
                 Forall (fun p => in_block p = required p) enabled)
  /\ (forall p, In p enabled -> in_block p <> required p ->
                exists r s',
                  ProcessBlock E block pindex fJustCheck fBLSChecks s = Done r s'
                  /\ (r = ResInvalid "bad-qc-not-allowed" \/ r = ResInvalid "bad-qc-missing")).
Proof.
  intros Hs Hact Htip Hh0 Hh Hex enabled required in_block.
  pose proof (after_bls_switch_coherent E pindex s Hs) as Hs0.
  destruct (after_bls_switch_grows E pindex s) as (Hdb0 & _).
  destruct (check_commitment_counts_coherent E pindex qcs enabled
              (after_bls_switch E pindex s) Hs0 Htip Hh0 Hh)
    as (counts & s1 & Hcounts & Hverdict & Hg & Hs1).
  rewrite Hdb0 in Hverdict.
  assert (Hreject : counts <> ResOk ->
                    ProcessBlock E block pindex fJustCheck fBLSChecks s = Done counts s1).
  { intros Hne. rewrite ProcessBlock_active, Hex by done.
    unfold bind. fold enabled. rewrite Hcounts. by destruct counts. }
  split; [|split; [|split]].
  - intros p.
    destruct (GetNumCommitmentsRequired_coherent E p (nHeight pindex) s Hs Hh0 Hh)
      as (n & sp & Hrun & -> & _). by exists sp.
  - intros pre p post Hen Hpre.
    assert (Hv : (required p < in_block p)%nat \/ (in_block p < required p)%nat ->
                 counts = if (required p <? in_block p)%nat
                          then ResInvalid "bad-qc-not-allowed"
                          else ResInvalid "bad-qc-missing").
    { intros Hmis. rewrite Hverdict, Hen.
      by apply counts_verdict_first_mismatch. }
    split; intros Hlt.
    + exists s1. rewrite Hreject; rewrite Hv by auto.
      * by destruct (Nat.ltb_spec (required p) (in_block p)); [|lia].
      * by destruct (_ <? _)%nat.
    + exists s1. rewrite Hreject; rewrite Hv by auto.
      * by destruct (Nat.ltb_spec (required p) (in_block p)); [lia|].
      * by destruct (_ <? _)%nat.
  - intros s' Hrun. apply ProcessBlock_active_inv in Hrun; [|done].
    destruct Hrun as [(? & _ & ? & _)|(qcs' & counts' & s1' & Hex' & Hc' & Hrun)]; [done|].
    rewrite Hex in Hex'. injection Hex' as <-. fold enabled in Hc'.
    rewrite Hcounts in Hc'. injection Hc' as <- <-.
    assert (counts = ResOk) as Hok.
    { destruct Hrun as [(Hne & <- & _)|(-> & _)]; done. }
    rewrite Hok in Hverdict. symmetry in Hverdict.
    by apply counts_verdict_ok in Hverdict.
  - intros p Hin Hne. exists counts, s1.
    assert (Hbad : counts <> ResOk).
    { intros Hok. rewrite Hok in Hverdict. symmetry in Hverdict.
      apply counts_verdict_ok in Hverdict.
      rewrite Forall_forall in Hverdict. apply Hne.
      apply Hverdict. by apply list_elem_of_In. }
    split; [by apply Hreject|].
    clear -Hverdict Hbad. revert Hverdict Hbad. generalize enabled. clear enabled.
    intros enabled. induction enabled as [|q enabled IH]; cbn [counts_verdict].
    + intros -> ?. done.
    + destruct (_ <? _)%nat; [intros -> _; by left|].
      destruct (_ <? _)%nat; [intros -> _; by right|]. exact IH.
Qed.

Lemma ProcessBlock_requires_exact_commitment_counts_witness :
  let E := ex_env 28 false 10 in
  (exists s', ProcessBlock E ex_block_empty (ex_chain 29) false true ex_state
              = Done (ResInvalid "bad-qc-missing") s')
  /\ multimap_count 1 (snd (GetCommitmentsFromBlock E ex_block_empty (ex_chain 29))) = 0%nat
  /\ RequiredCommitmentCount E ex_params 29 (evoDb ex_state) = 1%nat.
Proof.
  cbn zeta.
  destruct (ProcessBlock_requires_exact_commitment_counts
              (ex_env 28 false 10) ex_block_empty (ex_chain 29) false true ex_state [])
    as (_ & Hfirst & _).
  - by apply cache_coherent_empty_cache.
  - vm_compute. discriminate.
  - by eexists.
  - vm_compute. discriminate.
  - vm_compute. discriminate.
  - reflexivity.
  - destruct (Hfirst [] ex_params [] eq_refl (Forall_nil_2 _)) as (_ & Hmissing).
    split; [|split; reflexivity].
    apply Hmissing. vm_compute. lia.
Defined.

(** ** Null commitments and the records of the store *)

Section Records.
Context (E : Env).

Lemma new_records_nonnull_refl s : new_records_nonnull s s.
Proof. intros k qc bh Hk. by left. Qed.

Lemma new_records_nonnull_trans s1 s2 s3 :
  new_records_nonnull s1 s2 -> new_records_nonnull s2 s3 -> new_records_nonnull s1 s3.
Proof.
  intros H12 H23 k qc bh Hk. destruct (H23 k qc bh Hk) as [Hk2|]; [|by right].
  by apply H12.
Qed.

Lemma new_records_nonnull_same_db s s' :
  evoDb s' = evoDb s -> new_records_nonnull s s'.
Proof. intros Hdb k qc bh Hk. left. by rewrite <- Hdb. Qed.

Lemma new_records_nonnull_db s s' :
  new_records_nonnull s s' -> db_nonnull s -> db_nonnull s'.
Proof.
  intros Hnew Hs k qc bh Hk. destruct (Hnew k qc bh Hk) as [Hold|]; [|done].
  by eapply Hs.
Qed.

Lemma ProcessCommitment_records h bh qc fJustCheck fBLSChecks s :
  ensures (ProcessCommitment E h bh qc fJustCheck fBLSChecks) s
    (fun _ s' => new_records_nonnull s s').
Proof.
  eapply ensures_weaken; [apply ProcessCommitment_cases|].
  intros r s' [[Hg _]|(_ & _ & Hnull & p & base & s1 & _ & _ & _ & Hm & _ & _ & ->)].
  - apply new_records_nonnull_same_db. apply Hg.
  - destruct (HasMinedCommitment_returns (type p) (quorumHash qc) s)
      as (b & s1' & Hm' & Hdb & _).
    rewrite Hm in Hm'. injection Hm' as _ <-.
    intros k qc' bh' Hk. unfold committed in Hk. cbn in Hk. rewrite Hdb in Hk.
    apply lookup_insert_Some in Hk as [[_ [=]]|[_ Hk]].
    apply lookup_insert_Some in Hk as [[_ [= <- <-]]|[_ Hk]]; [by right | by left].
Qed.

Lemma process_commitments_records h bh fJustCheck fBLSChecks qcs s :
  ensures (process_commitments E h bh fJustCheck fBLSChecks qcs) s
    (fun _ s' => new_records_nonnull s s').
Proof.
  revert s. induction qcs as [|[t qc] qcs IH]; intros s; cbn [process_commitments].
  - apply ensures_ret. apply new_records_nonnull_refl.
  - apply ensures_bind.
    eapply ensures_weaken; [apply ProcessCommitment_records|].
    intros r s1 Hn1. cbn beta.
    destruct r; [|by apply ensures_ret..].
    eapply ensures_weaken; [apply IH|].
    intros r' s2 Hn2. exact (new_records_nonnull_trans _ _ _ Hn1 Hn2).
Qed.

Lemma ProcessBlock_records block pindex fJustCheck fBLSChecks s :
  ensures (ProcessBlock E block pindex fJustCheck fBLSChecks) s
    (fun _ s' => new_records_nonnull s s').
Proof.
  intros r s' Hrun.
  assert (Hmarker : forall s0 v,
             new_records_nonnull s0 (set_evoDb (insert best_block_key (ValHash v)) s0)).
  { intros s0 v k qc bh Hk. cbn in Hk.
    apply lookup_insert_Some in Hk as [[_ [=]]|[_ Hk]]. by left. }
  destruct (Z.lt_ge_cases (nHeight pindex) (DIP0003Height E)) as [Hlt|Hge].
  { rewrite ProcessBlock_before_activation in Hrun by done.
    injection Hrun as <- <-. apply Hmarker. }
  assert (H0 : new_records_nonnull s (after_bls_switch E pindex s)).
  { apply new_records_nonnull_same_db. apply after_bls_switch_grows. }
  apply ProcessBlock_active_inv in Hrun; [|done].
  destruct Hrun as [(qcs & Hex & Hne & ->)
                   |(qcs & counts & s1 & Hex & Hcounts & Hrun)]; [done|].
  pose proof (check_commitment_counts_ensures E _ _ _ _ _ _ Hcounts) as (Hdb1 & _).
  apply new_records_nonnull_same_db in Hdb1.
  pose proof (new_records_nonnull_trans _ _ _ H0 Hdb1) as H1.
  destruct Hrun as [(Hne & -> & ->)|(-> & r2 & s2 & Hproc & Hrun)]; [done|].
  pose proof (process_commitments_records _ _ _ _ _ _ _ _ Hproc) as H12.
  pose proof (new_records_nonnull_trans _ _ _ H1 H12) as H2.
  destruct Hrun as [(Hne & -> & ->)|(-> & -> & ->)]; [done|].
  eapply new_records_nonnull_trans; [exact H2 | apply Hmarker].
Qed.

Lemma AddMineableCommitment_db fqc s :
  ensures (AddMineableCommitment E fqc) s
    (fun _ s' => evoDb s' = evoDb s
                 /\ mapHasMinedCommitmentCache s' = mapHasMinedCommitmentCache s).
Proof.
  intros [] s' Hrun. unfold AddMineableCommitment in Hrun.
  destruct (minableCommitmentsByQuorum s !! _); [|by injection Hrun as <-].
  destruct (minableCommitments s !! _); [|done].
  destruct (_ >? _); by injection Hrun as <-.
Qed.

(** [UndoBlock] skips a null commitment. *)
Lemma undo_commitment_null pindex qc s :
  IsNull qc = true -> undo_commitment E pindex qc s = Done tt s.
Proof. intros Hnull. unfold undo_commitment. by rewrite Hnull. Qed.

(** The database after undoing one commitment: two keys are erased. *)
Lemma undo_commitment_db pindex qc s :
  ensures (undo_commitment E pindex qc) s
    (fun _ s' =>
       evoDb s' = evoDb s
       \/ (IsNull qc = false
           /\ exists p, GetLLMQParams E (llmqType qc) = Some p
              /\ evoDb s'
                 = delete (reverse_key (IsQuorumRotationEnabled E p (Some pindex))
                             (llmqType qc) (nHeight pindex) (quorumIndex qc))
                     (delete (mined_key (llmqType qc) (quorumHash qc)) (evoDb s)))).
Proof.
  intros [] s' Hrun. unfold undo_commitment in Hrun.
  destruct (IsNull qc) eqn:Hnull; [injection Hrun as <-; by left|].
  apply bind_Done in Hrun as ([] & s1 & H1 & Hrun). injection H1 as <-.
  destruct (GetLLMQParams E (llmqType qc)) as [p|] eqn:Hp; [|done].
  apply bind_Done in Hrun as ([] & s2 & H2 & Hrun).
  apply bind_Done in Hrun as ([] & s3 & H3 & Hrun). injection H3 as <-.
  apply AddMineableCommitment_db in Hrun as [Hdb _].
  right. split; [done|]. exists p. split; [done|]. rewrite Hdb. cbn.
  unfold reverse_key.
  destruct (IsQuorumRotationEnabled E p (Some pindex)); by injection H2 as <-.
Qed.

Lemma undo_commitments_records pindex qcs s :
  ensures (undo_commitments E pindex qcs) s (fun _ s' => new_records_nonnull s s').
Proof.
  revert s. induction qcs as [|[t qc] qcs IH]; intros s; cbn [undo_commitments].
  - apply ensures_ret. apply new_records_nonnull_refl.
  - apply ensures_bind.
    eapply ensures_weaken; [apply undo_commitment_db|].
    intros [] s1 Hdb. cbn beta.
    eapply ensures_weaken; [apply IH|].
    intros [] s2 Hn. eapply new_records_nonnull_trans; [|exact Hn].
    destruct Hdb as [Hdb|(_ & p & _ & Hdb)].
    + by apply new_records_nonnull_same_db.
    + intros k qc' bh' Hk. left. rewrite Hdb in Hk.
      apply lookup_delete_Some in Hk as [_ Hk].
      by apply lookup_delete_Some in Hk as [_ Hk].
Qed.

Lemma UndoBlock_records block pindex s :
  ensures (UndoBlock E block pindex) s (fun _ s' => new_records_nonnull s s').
Proof.
  intros r s' Hrun. unfold UndoBlock in Hrun.
  apply bind_Done in Hrun as ([] & s0 & H0 & Hrun).
  assert (Hs0 : evoDb s0 = evoDb s).
  { destruct (negb _); by injection H0 as <-. }
  apply new_records_nonnull_same_db in Hs0.
  eapply new_records_nonnull_trans; [exact Hs0|].
  destruct (GetCommitmentsFromBlock E block pindex) as [[] qcs];
    [|injection Hrun as _ <-; apply new_records_nonnull_refl..].
  apply bind_Done in Hrun as ([] & s1 & H1 & Hrun).
  apply undo_commitments_records in H1.
  eapply new_records_nonnull_trans; [exact H1|].
  destruct (pprev pindex) as [prev|]; [|done].
  injection Hrun as _ <-.
  intros k qc bh Hk. cbn in Hk.
  apply lookup_insert_Some in Hk as [[_ [=]]|[_ Hk]]. by left.
Qed.

End Records.

(** C9.  A null commitment is never persisted.  [ProcessCommitment] on a null
    commitment always returns and leaves the whole state as it was (database,
    existence cache and pool); it returns success exactly when the type is
    known, the committee hash of the commitment is the expected non-null
    hash, and the null proof verifies.  [UndoBlock] does nothing for a null
    commitment.  Hence a database whose commitment records are all non-null
    stays so under [ProcessBlock] and [UndoBlock]. *)
Theorem null_commitments_are_never_persisted (E : Env) :
  (forall h bh qc fJustCheck fBLSChecks s,
      IsNull qc = true ->
      exists r,
        ProcessCommitment E h bh qc fJustCheck fBLSChecks s = Done r s
        /\ (r = ResOk <->
            exists p, GetLLMQParams E (llmqType qc) = Some p
                      /\ expected_quorum_hash E p h qc = quorumHash qc
                      /\ quorumHash qc <> 0
                      /\ VerifyNull E qc = true))
  /\ (forall pindex qc s,
         IsNull qc = true -> undo_commitment E pindex qc s = Done tt s)
  /\ (forall block pindex fJustCheck fBLSChecks s r s',
         db_nonnull s ->
         ProcessBlock E block pindex fJustCheck fBLSChecks s = Done r s' ->
         db_nonnull s')
  /\ (forall block pindex s r s',
         db_nonnull s ->
         UndoBlock E block pindex s = Done r s' ->
         db_nonnull s').
Proof.
  split; [|split; [|split]].
  - intros. by apply ProcessCommitment_null.
  - intros. by apply undo_commitment_null.
  - intros block pindex fJ fB s r s' Hs Hrun.
    eapply new_records_nonnull_db; [|exact Hs].
    exact (ProcessBlock_records E _ _ _ _ _ _ _ Hrun).
  - intros block pindex s r s' Hs Hrun.
    eapply new_records_nonnull_db; [|exact Hs].
    exact (UndoBlock_records E _ _ _ _ _ Hrun).
Qed.

Lemma null_commitments_are_never_persisted_witness :
  let E := ex_env 28 false 10 in
  IsNull ex_null = true
  /\ ProcessCommitment E 29 1029 ex_null false true ex_state = Done ResOk ex_state
  /\ exists s',
       ProcessBlock E ex_block_null (ex_chain 29) false true ex_state = Done ResOk s'
       /\ db_nonnull s'.
Proof.
  cbn zeta.
  destruct (null_commitments_are_never_persisted (ex_env 28 false 10))
    as (Hnull & _ & Hblock & _).
  split; [reflexivity|]. split.
  - destruct (Hnull 29 1029 ex_null false true ex_state eq_refl) as (r & Hrun & _).
    rewrite Hrun. f_equal. vm_compute in Hrun. by injection Hrun as <-.
  - eexists. split; [vm_compute; reflexivity|].
    eapply (Hblock ex_block_null (ex_chain 29) false true ex_state).
    + intros k qc bh Hk. change (evoDb ex_state) with (∅ : gmap DbKey DbValue) in Hk.
      by rewrite lookup_empty in Hk.
    + vm_compute. reflexivity.
Defined.

(** ** Candidates for the next block *)

Section Mineable.
Context (E : Env).

Lemma cache_grows_pool_linked s s' : cache_grows s s' -> pool_linked s -> pool_linked s'.
Proof.
  intros (_ & _ & Hq & Hm & _) Hs k hash. rewrite Hq, Hm. apply Hs.
Qed.

Lemma GetNumCommitmentsRequired_returns p h s :
  0 <= h -> h <= ChainActive_Height E + 1 ->
  returns (GetNumCommitmentsRequired E p h) s (fun _ s' => cache_grows s s').
Proof.
  intros Hh0 Hh. unfold GetNumCommitmentsRequired.
  assert (Hle : (h <=? ChainActive_Height E + 1) = true) by (apply Z.leb_le; lia).
  apply returns_bind. exists (in_mining_window p h), s.
  split; [by rewrite IsMiningPhase_eq, Hle|].
  destruct (in_mining_window p h); cbn [negb].
  - apply returns_bind. exists tt, s. split; [by unfold assert; rewrite Hle|].
    apply returns_bind. exists (rotation_block E h), s.
    split; [by apply tip_or_ancestor_eq|].
    apply count_required_returns.
  - apply returns_ret. apply cache_grows_refl.
Qed.

Lemma collect_mineable_returns p h rot bls idxs acc s :
  pool_linked s ->
  returns (collect_mineable E p h rot bls idxs acc) s (fun _ s' => cache_grows s s').
Proof.
  revert acc s. induction idxs as [|qi idxs IH]; intros acc s Hs; cbn [collect_mineable].
  - apply returns_ret. apply cache_grows_refl.
  - destruct (_ =? 0); [apply returns_ret; apply cache_grows_refl|].
    apply returns_bind.
    eapply returns_weaken; [apply HasMinedCommitment_returns|].
    intros mined s1 Hg. cbn beta.
    pose proof (cache_grows_pool_linked _ _ Hg Hs) as Hs1.
    assert (Hrest : forall acc',
               returns (collect_mineable E p h rot bls idxs acc') s1
                 (fun _ s' => cache_grows s s')).
    { intros acc'. eapply returns_weaken; [by apply IH|].
      intros r s2 Hg'. exact (cache_grows_trans _ _ _ Hg Hg'). }
    destruct mined; [apply Hrest|].
    unfold returns.
    destruct (minableCommitmentsByQuorum s1 !! _) as [hash|] eqn:Hslot; [|apply Hrest].
    destruct (Hs1 _ _ Hslot) as [cf ->]. apply Hrest.
Qed.

End Mineable.

(** C10.  [GetMineableCommitments] never returns an empty list: whenever it
    returns, the result is [nullopt] or a non-empty vector; it is [nullopt]
    whenever [GetNumCommitmentsRequired] returns [0].  It does return for a
    height that may be asked when every slot of the pool points to a stored
    candidate. *)
Theorem GetMineableCommitments_nullopt_or_nonempty
    (E : Env) (p : LLMQParams) (h : Z) (s : State) :
  (forall r s', GetMineableCommitments E p h s = Done r s' ->
                r = None \/ exists qc qcs, r = Some (qc :: qcs))
  /\ (forall s1, GetNumCommitmentsRequired E p h s = Done 0%nat s1 ->
                 GetMineableCommitments E p h s = Done None s1)
  /\ (0 <= h -> h <= ChainActive_Height E + 1 -> pool_linked s ->
      exists r s', GetMineableCommitments E p h s = Done r s').
Proof.
  split; [|split].
  - intros r s' Hrun. unfold GetMineableCommitments in Hrun.
    apply bind_Done in Hrun as (required & s1 & _ & Hrun).
    destruct (required =? 0)%nat; [injection Hrun as <- _; by left|].
    apply bind_Done in Hrun as ([] & s2 & _ & Hrun).
    apply bind_Done in Hrun as (pindex & s3 & _ & Hrun).
    apply bind_Done in Hrun as (result & s4 & _ & Hrun).
    case_bool_decide as Hnil; injection Hrun as <- _; [by left|].
    right. destruct result as [|qc qcs]; [done | eauto].
  - intros s1 Hreq. unfold GetMineableCommitments, bind. by rewrite Hreq.
  - intros Hh0 Hh Hs. unfold GetMineableCommitments.
    assert (Hle : (h <=? ChainActive_Height E + 1) = true) by (apply Z.leb_le; lia).
    destruct (GetNumCommitmentsRequired_returns E p h s Hh0 Hh) as (n & s1 & Hreq & Hg).
    pose proof (cache_grows_pool_linked _ _ Hg Hs) as Hs1.
    unfold bind at 1. rewrite Hreq.
    destruct (n =? 0)%nat; [by eauto|].
    unfold bind at 1, assert. rewrite Hle. cbn.
    unfold bind at 1. rewrite tip_or_ancestor_eq by done.
    unfold bind.
    match goal with
    | |- context [collect_mineable E p h ?rot ?bls ?idxs [] s1] =>
        destruct (collect_mineable_returns E p h rot bls idxs [] s1 Hs1)
          as (result & s2 & -> & _)
    end.
    destruct (bool_decide (result = [])); eauto.
Qed.

Lemma GetMineableCommitments_nullopt_or_nonempty_witness :
  let E := ex_env 28 true 10 in
  exists r s',
    GetMineableCommitments E ex_params 29 ex_state = Done r s'
    /\ (r = None \/ exists qc qcs, r = Some (qc :: qcs))
    /\ length (default [] r) = 2%nat.
Proof.
  cbn zeta.
  destruct (GetMineableCommitments_nullopt_or_nonempty
              (ex_env 28 true 10) ex_params 29 ex_state)
    as (Hshape & _ & Hreturns).
  destruct Hreturns as (r & s' & Hrun).
  - lia.
  - vm_compute. discriminate.
  - intros k hash Hk. change (minableCommitmentsByQuorum ex_state)
      with (∅ : gmap (Z * Z) Z) in Hk. by rewrite lookup_empty in Hk.
  - exists r, s'. split; [exact Hrun|]. split; [exact (Hshape r s' Hrun)|].
    vm_compute in Hrun. by injection Hrun as <- _.
Defined.

(** ** Undo exactness *)

Section Undo.
Context (E : Env).





Lemma reverse_key_not_best rot t h qi : reverse_key rot t h qi <> best_block_key.
Proof. unfold reverse_key. by destruct rot. Qed.







End Undo.

Section BlockUndo.
Context (E : Env).









End BlockUndo.

(** ** Runs from states with the same records *)

Section Lockstep.
Context (E : Env).





















End Lockstep.

Section Idempotence.
Context (E : Env).



End Idempotence.



